(** * XP calculator: the seeded simulation engine of [src/app/page.tsx]

    A shallow embedding of the deterministic core of the [XPCalculator]
    component: the level curve, the seeded placement roller, the 365-day
    simulation behind [chartData], the annotation generator and the yearly
    statistics.

    Numbers.  A finite JavaScript number is a rational, so the numeric
    inputs (points, coefficients, probabilities, XP totals) are values of
    [Q] and arithmetic on them is exact: this is the code read over the
    reals, which its run on IEEE doubles follows wherever no operation
    rounds.  Quantities the code only ever handles as integers
    (days, levels, counters, results of [Math.floor] and [Math.round]) and
    the schedule counts, which the number inputs step through as integers,
    are values of [Z].  [Math.sin] is implementation-approximated in
    ECMAScript, so it is an operation of the [JSMath] interface, of which
    only the range [-1, 1] is assumed.

    Doubles.  Where a property depends on the rounding, the overflow or
    the NaN of IEEE binary64 (the value of a level, the inverse of the
    level curve, the termination of its scan), the level curve is
    modelled a second time in the module [Double]: the polynomial is
    evaluated on primitive floats, and the integral XP values it yields
    are added with the rounding of binary64 written out.  Properties of
    sums of points are stated on integral inputs, on which the sums of
    binary64 are exact. *)

From Stdlib Require Import ZArith QArith Qround Qabs Qminmax Lia Lqa List Bool.
From Stdlib Require Import Floats.
From stdpp Require Import base option list gmap.

Local Open Scope Z_scope.
Local Open Scope Q_scope.

(** ** JavaScript arithmetic on finite numbers *)

Module JS.

(** [Math.floor] on a finite number. *)
Definition floor (x : Q) : Z := Qfloor x.

(** [Math.round]: the nearest integer, ties towards +infinity. *)
Definition round (x : Q) : Z := Qfloor (x + (1 # 2)).

(** [x < y] and [x <= y] as the booleans the source branches on. *)
Definition ltb (x y : Q) : bool := negb (Qle_bool y x).
Definition leb (x y : Q) : bool := Qle_bool x y.

End JS.

(** The part of the JavaScript runtime the engine calls and that this
    development does not define: [Math.sin], any implementation of which
    returns a number between -1 and 1. *)
Class JSMath := {
  Math_sin : Q -> Q;
  Math_sin_range : forall x, -1 <= Math_sin x <= 1
}.

(** ** Data model *)

Inductive PlayerProfile := WinsEverything | Exceptional | Average | Looser.

Inductive Placement := First | Second | Third | Participation.

Record PlacementDistribution := {
  first : Q;
  second : Q;
  third : Q;
  participation : Q
}.

(** [playerProfiles[profile].distribution]. *)
Definition distribution (p : PlayerProfile) : PlacementDistribution :=
  match p with
  | WinsEverything => {| first := 1; second := 0; third := 0; participation := 0 |}
  | Exceptional => {| first := 50 # 100; second := 25 # 100; third := 25 # 100; participation := 0 |}
  | Average => {| first := 20 # 100; second := 20 # 100; third := 30 # 100; participation := 30 # 100 |}
  | Looser => {| first := 0; second := 0; third := 0; participation := 1 |}
  end.

Inductive Cadence := Daily | Weekly | Monthly.

(** [GAME_DURATIONS], in days. *)
Definition GAME_DURATIONS (c : Cadence) : Z :=
  match c with Daily => 1 | Weekly => 7 | Monthly => 30 end.

(** The debounced polynomial coefficients. *)
Record Coefficients := {
  polyA : Q;
  polyB : Q;
  polyC : Q;
  polyMultiplier : Q
}.

(** The component state read by the engine. *)
Record Inputs := {
  selectedProfile : PlayerProfile;
  dailyGames : Z;
  weeklyGames : Z;
  monthlyGames : Z;
  firstPlacePointsPerDay : Q;
  secondPlacePointsPerDay : Q;
  thirdPlacePointsPerDay : Q;
  participationPointsPerDay : Q;
  coefficients : Coefficients
}.

(** ** Level curve *)

Section LevelCurve.

Variable k : Coefficients.

Definition polynomialValue (level : Z) : Q :=
  polyA k * inject_Z level ^ 2 + polyB k * inject_Z level + polyC k.

(** [calculateXPForLevel]: [Math.max(1, Math.floor(result))]. *)
Definition calculateXPForLevel (level : Z) : Z :=
  let result := polynomialValue level * polyMultiplier k in
  Z.max 1 (JS.floor result).

(** [calculateTotalXPToLevel]: the [for] loop runs [level] over
    1, 2, ..., [targetLevel], adding to [totalXP]. *)
Definition levelsUpTo (targetLevel : Z) : list Z :=
  map (fun i => Z.of_nat i) (seq 1 (Z.to_nat targetLevel)).

Definition calculateTotalXPToLevel (targetLevel : Z) : Z :=
  fold_left (fun totalXP level => (totalXP + calculateXPForLevel level)%Z)
            (levelsUpTo targetLevel) 0%Z.

(** The [while] loop of [calculateLevelFromXP], with its two variables
    [level] and [xpUsed] and a counter of executed loop bodies.  [None]
    means that the fuel ran out before the loop condition failed. *)
Fixpoint levelLoop (fuel : nat) (totalXP : Q) (level xpUsed : Z) (iterations : nat)
  : option (Z * Z * nat) :=
  match fuel with
  | O => None
  | S fuel' =>
      if JS.leb (inject_Z (xpUsed + calculateXPForLevel level)) totalXP
      then levelLoop fuel' totalXP (level + 1)%Z
                     (xpUsed + calculateXPForLevel level)%Z (S iterations)
      else Some (level, xpUsed, iterations)
  end.

(** Fuel that always lets the loop finish: the loop condition is
    evaluated at most [floor totalXP + 1] times for [totalXP >= 0] and
    once otherwise. *)
Definition levelFuel (totalXP : Q) : nat := S (Z.to_nat (JS.floor totalXP)).

Definition levelScan (totalXP : Q) : option (Z * Z * nat) :=
  levelLoop (levelFuel totalXP) totalXP 1%Z 0%Z O.

(** [calculateLevelFromXP]: [return level - 1]. *)
Definition calculateLevelFromXP (totalXP : Q) : Z :=
  match levelScan totalXP with
  | Some (level, _, _) => level - 1
  | None => 0
  end.

(** The number of times the loop body ran. *)
Definition levelIterations (totalXP : Q) : nat :=
  match levelScan totalXP with
  | Some (_, _, iterations) => iterations
  | None => O
  end.



End LevelCurve.

(** ** Annotation keys

    The annotation object is keyed by the template string
    [`weekly_${day}_${gameIndex}`] or [`monthly_${day}_${gameIndex}`]; a
    key is kept as the triple the template is built from. *)

Definition AnnotationKey : Type := Cadence * Z * Z.

#[global] Instance Cadence_eq_dec : EqDecision Cadence.
Proof. solve_decision. Defined.

#[global] Instance Cadence_countable : Countable Cadence.
Proof.
  refine (inj_countable' (fun c => match c with Daily => 0%nat | Weekly => 1%nat | Monthly => 2%nat end)
                         (fun n => match n with 0%nat => Daily | 1%nat => Weekly | _ => Monthly end) _).
  intros []; reflexivity.
Defined.

#[global] Instance Placement_eq_dec : EqDecision Placement.
Proof. solve_decision. Defined.

(** ** Loop ranges *)

(** The values of [i] in [for (i = 0; i < n; i++)]. *)
Definition indicesBelow (n : Z) : list Z :=
  map (fun i => Z.of_nat i) (seq 0 (Z.to_nat n)).

(** The values of [day] in [for (day = start; day <= stop; day += step)],
    for a positive [step]. *)
Definition steppedDays (start stop step : Z) : list Z :=
  map (fun i => (start + step * Z.of_nat i)%Z)
      (seq 0 (Z.to_nat ((stop - start) / step + 1))).

(** [Array.from({ length: 365 }, (_, i) => i + 1)]. *)
Definition days : list Z := map (fun i => (Z.of_nat i + 1)%Z) (seq 0 365).

(** ** Seeded roller, year simulator and annotation generator *)

Section Engine.

Context {js : JSMath}.
Variable inp : Inputs.

(** [currentProfile.distribution], bound to the local constant
    [placementDistribution] in both [useMemo] bodies. *)
Variable placementDistribution : PlacementDistribution.

Definition seedRandom (seed : Q) : Q :=
  let x := Math_sin seed * 10000 in
  x - inject_Z (JS.floor x).

Definition rollPlacement (seed : Q) : Placement :=
  let roll := seedRandom seed in
  if JS.ltb roll (first placementDistribution) then First
  else if JS.ltb roll (first placementDistribution + second placementDistribution) then Second
  else if JS.ltb roll (first placementDistribution + second placementDistribution
                       + third placementDistribution) then Third
  else Participation.

Definition getPointsForPlacement (placement : Placement) (gameDuration : Z) : Q :=
  match placement with
  | First => firstPlacePointsPerDay inp * inject_Z gameDuration
  | Second => secondPlacePointsPerDay inp * inject_Z gameDuration
  | Third => thirdPlacePointsPerDay inp * inject_Z gameDuration
  | Participation => participationPointsPerDay inp
  end.

(** The per-profile constants added to the seeds. *)
Definition weeklySeedOffset : Z :=
  match selectedProfile inp with
  | WinsEverything => 1 | Exceptional => 2 | Average => 3 | Looser => 4
  end.

Definition monthlySeedOffset : Z :=
  match selectedProfile inp with
  | WinsEverything => 100 | Exceptional => 200 | Average => 300 | Looser => 400
  end.

Definition weeklySeed (weekCount gameIndex : Z) : Z :=
  (weekCount * 1000 + gameIndex + weeklySeedOffset)%Z.

Definition monthlySeed (monthCount gameIndex : Z) : Z :=
  (monthCount * 10000 + gameIndex + monthlySeedOffset)%Z.

(** [calculateGameTypePoints]; its only caller passes the result of
    [Math.round] as [gameCount]. *)
Definition firstPlaceGames (gameCount : Z) (d : PlacementDistribution) : Z :=
  JS.floor (inject_Z gameCount * first d).
Definition secondPlaceGames (gameCount : Z) (d : PlacementDistribution) : Z :=
  JS.floor (inject_Z gameCount * second d).
Definition thirdPlaceGames (gameCount : Z) (d : PlacementDistribution) : Z :=
  JS.floor (inject_Z gameCount * third d).
Definition participationGames (gameCount : Z) (d : PlacementDistribution) : Z :=
  (gameCount - firstPlaceGames gameCount d - secondPlaceGames gameCount d
   - thirdPlaceGames gameCount d)%Z.

Definition calculateGameTypePoints
    (gameCount : Z) (d : PlacementDistribution) (gameDuration : Z) : Q :=
  inject_Z (firstPlaceGames gameCount d) * firstPlacePointsPerDay inp * inject_Z gameDuration
  + inject_Z (secondPlaceGames gameCount d) * secondPlacePointsPerDay inp * inject_Z gameDuration
  + inject_Z (thirdPlaceGames gameCount d) * thirdPlacePointsPerDay inp * inject_Z gameDuration
  + inject_Z (participationGames gameCount d) * participationPointsPerDay inp.

Definition getSeasonalMultiplier (month : Z) : Q :=
  if ((5 <=? month) && (month <=? 7))%Z then 8 # 10
  else if ((10 <=? month) || (month <=? 1))%Z then 12 # 10
  else 1.

Definition getDailyVariation (day : Z) : Q :=
  (85 # 100) + Math_sin (inject_Z day * (1 # 10)) * (15 # 100).

(** [Math.floor((day - 1) / 30.44)]. *)
Definition monthOfDay (day : Z) : Z :=
  JS.floor (inject_Z (day - 1) / (3044 # 100)).

Definition adjustedDailyGames (day : Z) : Z :=
  JS.round (inject_Z (dailyGames inp) * (5 # 7)
            * getSeasonalMultiplier (monthOfDay day) * getDailyVariation day).

Definition adjustedWeeklyGames (day : Z) : Z :=
  JS.round (inject_Z (weeklyGames inp)
            * getSeasonalMultiplier (monthOfDay day) * getDailyVariation day).

Definition adjustedMonthlyGames (day : Z) : Z :=
  JS.round (inject_Z (monthlyGames inp) * getSeasonalMultiplier (monthOfDay day)).

(** The state of the [days.forEach] loop of [chartData].  [rolled] is a
    ghost record of the placement rolled for each individually
    simulated game; the source adds the game's points and drops the
    placement.  The [labels] array is not modelled. *)
Record SimState := {
  cumulativePoints : Q;
  dailyPointsData : list Q;
  dailyLevelsData : list Z;
  weekCount : Z;
  monthCount : Z;
  rolled : gmap AnnotationKey Placement
}.

(** One pass of an inner [for (gameIndex ...)] loop body: roll, add the
    points, remember the placement. *)
Definition rollGame (c : Cadence) (day : Z) (seedOf : Z -> Z)
    (acc : Q * gmap AnnotationKey Placement) (gameIndex : Z)
  : Q * gmap AnnotationKey Placement :=
  let (totalDailyPoints, log) := acc in
  let seed := seedOf gameIndex in
  let placement := rollPlacement (inject_Z seed) in
  let gamePoints := getPointsForPlacement placement (GAME_DURATIONS c) in
  (totalDailyPoints + gamePoints, <[(c, day, gameIndex) := placement]> log).

Definition rollGames (c : Cadence) (day : Z) (seedOf : Z -> Z) (count : Z)
    (acc : Q * gmap AnnotationKey Placement) : Q * gmap AnnotationKey Placement :=
  fold_left (rollGame c day seedOf) (indicesBelow count) acc.

(** The daily-games block. *)
Definition dailyBlock (day : Z) (totalDailyPoints : Q) : Q :=
  if (0 <? dailyGames inp)%Z
  then totalDailyPoints
       + calculateGameTypePoints (adjustedDailyGames day) placementDistribution
                                 (GAME_DURATIONS Daily)
  else totalDailyPoints.

(** The weekly-games block: the new [weekCount], and the loop's
    accumulator. *)
Definition weeklyBlock (day : Z) (weekCount : Z)
    (acc : Q * gmap AnnotationKey Placement)
  : Z * (Q * gmap AnnotationKey Placement) :=
  let dayOfWeek := (day mod 7)%Z in
  if ((dayOfWeek =? 0) && (0 <? weeklyGames inp))%Z
  then let weekCount := (weekCount + 1)%Z in
       (weekCount,
        rollGames Weekly day (weeklySeed weekCount) (adjustedWeeklyGames day) acc)
  else (weekCount, acc).

(** The monthly-games block. *)
Definition monthlyBlock (day : Z) (monthCount : Z)
    (acc : Q * gmap AnnotationKey Placement)
  : Z * (Q * gmap AnnotationKey Placement) :=
  let isMonthEnd := (day mod 30 =? 0)%Z in
  if (isMonthEnd && (0 <? monthlyGames inp))%Z
  then let monthCount := (monthCount + 1)%Z in
       (monthCount,
        rollGames Monthly day (monthlySeed monthCount) (adjustedMonthlyGames day) acc)
  else (monthCount, acc).

(** The body of [days.forEach]. *)
Definition simulateDay (st : SimState) (day : Z) : SimState :=
  let totalDailyPoints := 0 in
  let totalDailyPoints := dailyBlock day totalDailyPoints in
  let '(weekCount, (totalDailyPoints, log)) :=
    weeklyBlock day (weekCount st) (totalDailyPoints, rolled st) in
  let '(monthCount, (totalDailyPoints, log)) :=
    monthlyBlock day (monthCount st) (totalDailyPoints, log) in
  let cumulativePoints := cumulativePoints st + totalDailyPoints in
  let currentLevel := calculateLevelFromXP (coefficients inp) cumulativePoints in
  {| cumulativePoints := cumulativePoints;
     dailyPointsData := dailyPointsData st ++ [cumulativePoints];
     dailyLevelsData := dailyLevelsData st ++ [currentLevel];
     weekCount := weekCount;
     monthCount := monthCount;
     rolled := log |}.

(** What the three blocks add to [totalDailyPoints] on [day], given the
    counters the loop has reached. *)
Definition dailyContribution (day : Z) : Q := dailyBlock day 0.

Definition weeklyContribution (day weekCount : Z) : Q :=
  fst (snd (weeklyBlock day weekCount (0, ∅))).

Definition monthlyContribution (day monthCount : Z) : Q :=
  fst (snd (monthlyBlock day monthCount (0, ∅))).

(** The points of the games with the indices [l], rolled one by one. *)
Fixpoint gamesPoints (c : Cadence) (seedOf : Z -> Z) (l : list Z) : Q :=
  match l with
  | [] => 0
  | gameIndex :: l' =>
      getPointsForPlacement (rollPlacement (inject_Z (seedOf gameIndex))) (GAME_DURATIONS c)
      + gamesPoints c seedOf l'
  end.

Definition initialState : SimState :=
  {| cumulativePoints := 0;
     dailyPointsData := [];
     dailyLevelsData := [];
     weekCount := 0;
     monthCount := 0;
     rolled := ∅ |}.

(** The state after the first [n] days. *)
Definition simulateDays (n : nat) : SimState :=
  fold_left simulateDay (take n days) initialState.

(** [chartData]: the two data arrays come from the state after the
    whole year. *)
Definition chartData : SimState := fold_left simulateDay days initialState.

(** [generateGameAnnotations].  Of each annotation only the rolled
    placement is kept; its colour and label are functions of it. *)
Definition annotateGames (c : Cadence) (day : Z) (seedOf : Z -> Z) (count : Z)
    (annotations : gmap AnnotationKey Placement) : gmap AnnotationKey Placement :=
  fold_left (fun annotations gameIndex =>
               let seed := seedOf gameIndex in
               let placement := rollPlacement (inject_Z seed) in
               <[(c, day, gameIndex) := placement]> annotations)
            (indicesBelow count) annotations.

Definition weeklyAnnotations (annotations : gmap AnnotationKey Placement)
  : gmap AnnotationKey Placement :=
  if (0 <? weeklyGames inp)%Z
  then snd (fold_left
              (fun '(weekCount, annotations) day =>
                 let weekCount := (weekCount + 1)%Z in
                 (weekCount,
                  annotateGames Weekly day (weeklySeed weekCount) (weeklyGames inp)
                                annotations))
              (steppedDays 7 365 7) (0%Z, annotations))
  else annotations.

Definition monthlyAnnotations (annotations : gmap AnnotationKey Placement)
  : gmap AnnotationKey Placement :=
  if (0 <? monthlyGames inp)%Z
  then snd (fold_left
              (fun '(monthCount, annotations) day =>
                 let monthCount := (monthCount + 1)%Z in
                 (monthCount,
                  annotateGames Monthly day (monthlySeed monthCount) (monthlyGames inp)
                                annotations))
              (steppedDays 30 365 30) (0%Z, annotations))
  else annotations.

Definition generateGameAnnotations : gmap AnnotationKey Placement :=
  monthlyAnnotations (weeklyAnnotations ∅).

End Engine.

(** ** Yearly statistics *)

(** A JavaScript number that may be non-finite: what a division can
    produce. *)
Inductive JSNumber := Finite (q : Q) | NaN | PosInfinity | NegInfinity.

Definition isFinite (x : JSNumber) : bool :=
  match x with Finite _ => true | _ => false end.

(** [x / y] for finite [x] and [y]; the divisor here is an integer of
    [Z], so it is never the negative zero. *)
Definition jsDivide (x y : Q) : JSNumber :=
  if Qeq_bool y 0
  then if Qeq_bool x 0 then NaN
       else if JS.ltb 0 x then PosInfinity else NegInfinity
  else Finite (x / y).

(** [Math.round] on a possibly non-finite number. *)
Definition jsRound (x : JSNumber) : JSNumber :=
  match x with
  | Finite q => Finite (inject_Z (JS.round q))
  | other => other
  end.

Section Statistics.

Context {js : JSMath}.
Variable inp : Inputs.

(** The program proper: the distribution is the selected profile's. *)
Definition simulateYear : SimState := chartData inp (distribution (selectedProfile inp)).

Definition totalGamesPerYear : Z :=
  let dailyTotal := (dailyGames inp * 365)%Z in
  let weeklyTotal := (weeklyGames inp * 52)%Z in
  let monthlyTotal := (monthlyGames inp * 12)%Z in
  (dailyTotal + weeklyTotal + monthlyTotal)%Z.

(** [chartData.datasets[0].data[364] || 0]. *)
Definition totalPointsPerYear : Q :=
  match dailyPointsData simulateYear !! 364%nat with
  | Some v => if Qeq_bool v 0 then 0 else v
  | None => 0
  end.

(** [chartData.datasets[1].data[364] || 1]. *)
Definition finalLevel : Z :=
  match dailyLevelsData simulateYear !! 364%nat with
  | Some v => if (v =? 0)%Z then 1%Z else v
  | None => 1%Z
  end.

Definition avgPointsPerGame : JSNumber :=
  jsRound (jsDivide totalPointsPerYear (inject_Z totalGamesPerYear)).


End Statistics.

(** ** The level curve as the specification words it *)

(** [floor(max(1, (a·level² + b·level + c) · multiplier))]. *)
Definition xpForLevel_spec (k : Coefficients) (level : Z) : Z :=
  JS.floor (Qmax 1 ((polyA k * inject_Z level ^ 2 + polyB k * inject_Z level + polyC k)
                    * polyMultiplier k)).


(** ** A computable [Math.sin]

    A triangle wave of period 710/113 with the zeros and extrema of the
    sine in the same places; it inhabits [JSMath] and lets the engine be
    evaluated. *)

Definition triangleSin (x : Q) : Q :=
  let t := x / (710 # 113) + (1 # 4) in
  let u := t - inject_Z (JS.floor t) in
  1 - Qabs (4 * u - 2).

Definition triangleMath : JSMath.
Proof.
  refine {| Math_sin := triangleSin |}.
  intros x. unfold triangleSin.
  set (t := x / (710 # 113) + (1 # 4)).
  pose proof (Qfloor_le t) as Hlo. pose proof (Qlt_floor t) as Hhi.
  rewrite inject_Z_plus in Hhi. change (inject_Z 1) with 1 in Hhi.
  unfold JS.floor. set (u := t - inject_Z (Qfloor t)).
  assert (Hu : 0 <= u < 1) by (unfold u; split; lra).
  assert (Ha : Qabs (4 * u - 2) <= 2) by (apply Qabs_Qle_condition; split; lra).
  pose proof (Qabs_nonneg (4 * u - 2)). split; lra.
Defined.

(** The defaults of the component's [useState] calls. *)
Definition defaultInputs : Inputs :=
  {| selectedProfile := Average;
     dailyGames := 2; weeklyGames := 3; monthlyGames := 1;
     firstPlacePointsPerDay := 5; secondPlacePointsPerDay := 3;
     thirdPlacePointsPerDay := 2; participationPointsPerDay := 1;
     coefficients := {| polyA := 35 # 1000; polyB := 25 # 10; polyC := 10;
                        polyMultiplier := 5 # 10 |} |}.

(** ** Further parts of the component *)

(** The probability a distribution gives to a placement. *)
Definition probabilityOf (d : PlacementDistribution) (p : Placement) : Q :=
  match p with
  | First => first d
  | Second => second d
  | Third => third d
  | Participation => participation d
  end.




(** The sum of [f day] over the days 1..n. *)
Fixpoint sumDays (f : Z -> Q) (n : nat) : Q :=
  match n with
  | O => 0
  | S n' => sumDays f n' + f (Z.of_nat n' + 1)%Z
  end.

(** The inputs with only one cadence left scheduled. *)
Definition dailyOnly (inp : Inputs) : Inputs :=
  {| selectedProfile := selectedProfile inp;
     dailyGames := dailyGames inp; weeklyGames := 0; monthlyGames := 0;
     firstPlacePointsPerDay := firstPlacePointsPerDay inp;
     secondPlacePointsPerDay := secondPlacePointsPerDay inp;
     thirdPlacePointsPerDay := thirdPlacePointsPerDay inp;
     participationPointsPerDay := participationPointsPerDay inp;
     coefficients := coefficients inp |}.

Definition weeklyOnly (inp : Inputs) : Inputs :=
  {| selectedProfile := selectedProfile inp;
     dailyGames := 0; weeklyGames := weeklyGames inp; monthlyGames := 0;
     firstPlacePointsPerDay := firstPlacePointsPerDay inp;
     secondPlacePointsPerDay := secondPlacePointsPerDay inp;
     thirdPlacePointsPerDay := thirdPlacePointsPerDay inp;
     participationPointsPerDay := participationPointsPerDay inp;
     coefficients := coefficients inp |}.

Definition monthlyOnly (inp : Inputs) : Inputs :=
  {| selectedProfile := selectedProfile inp;
     dailyGames := 0; weeklyGames := 0; monthlyGames := monthlyGames inp;
     firstPlacePointsPerDay := firstPlacePointsPerDay inp;
     secondPlacePointsPerDay := secondPlacePointsPerDay inp;
     thirdPlacePointsPerDay := thirdPlacePointsPerDay inp;
     participationPointsPerDay := participationPointsPerDay inp;
     coefficients := coefficients inp |}.

(** The days on which [getSeasonalMultiplier(month)] is 0.8, 1.2 and 1. *)
Definition seasonOfDay (day : Z) : Q :=
  if ((154 <=? day) && (day <=? 244))%Z then 8 # 10
  else if ((day <=? 61) || (306 <=? day))%Z then 12 # 10
  else 1.

(** The keys the annotation generator writes, in the order of its loops. *)
Definition occurrenceKeys (c : Cadence) (step occurrences count : Z) : list AnnotationKey :=
  w ← map (fun i => (Z.of_nat i + 1)%Z) (seq 0 (Z.to_nat occurrences));
  map (fun g => (c, (step * w)%Z, g)) (indicesBelow count).

Definition annotationKeys (inp : Inputs) : list AnnotationKey :=
  occurrenceKeys Weekly 7 52 (weeklyGames inp)
  ++ occurrenceKeys Monthly 30 12 (monthlyGames inp).

(** ** Inputs on which the simulator stays within the integers

    With integral points per placement of at most 10^6 and at most 1000
    games per cadence, every number the simulator adds or multiplies is
    an integer far below 2^53, and binary64 computes with those
    exactly. *)

Definition integralPoints (q : Q) : bool :=
  Qeq_bool q (inject_Z (Qfloor q)) && (0 <=? Qfloor q)%Z && (Qfloor q <=? 1000000)%Z.

Definition scheduleCount (n : Z) : bool := (0 <=? n)%Z && (n <=? 1000)%Z.

Definition integralInputs (inp : Inputs) : bool :=
  integralPoints (firstPlacePointsPerDay inp)
  && integralPoints (secondPlacePointsPerDay inp)
  && integralPoints (thirdPlacePointsPerDay inp)
  && integralPoints (participationPointsPerDay inp)
  && scheduleCount (dailyGames inp)
  && scheduleCount (weeklyGames inp)
  && scheduleCount (monthlyGames inp).

(** Non-negative probabilities for the first three placements, of sum
    at most 1. *)
Definition subDistribution (d : PlacementDistribution) : bool :=
  Qle_bool 0 (first d) && Qle_bool 0 (second d) && Qle_bool 0 (third d)
  && Qle_bool (first d + second d + third d) 1.

(** [q] is an integer between 0 and [bound]. *)
Definition integerUpTo (bound : Z) (q : Q) : Prop :=
  exists z : Z, q == inject_Z z /\ (0 <= z <= bound)%Z.

(** What a day can add at most, and the year. *)
Definition dayBound : Z := 3 * (1200 * (1000000 * 30)).
Definition yearBound : Z := 365 * dayBound.

(** ** The level curve on binary64 numbers *)

Module Double.

(** An integral JavaScript number: what [Math.floor] returns, and what
    sums of such numbers are.  An integer of magnitude up to 2^53 is a
    double exactly; a larger one is a double when it is its own
    [round53]. *)
Inductive Integral := Int (z : Z) | NaNInt | PosInf | NegInf.

(** The exact value of a double. *)
Definition value (x : float) : JSNumber :=
  match Prim2SF x with
  | S754_zero _ => Finite 0
  | S754_infinity false => PosInfinity
  | S754_infinity true => NegInfinity
  | S754_nan => NaN
  | S754_finite s m e =>
      Finite ((if s then - inject_Z (Z.pos m) else inject_Z (Z.pos m)) * (2 # 1) ^ e)
  end.

(** [Math.floor], on the value of a double. *)
Definition floor (v : JSNumber) : Integral :=
  match v with
  | Finite q => Int (Qfloor q)
  | NaN => NaNInt
  | PosInfinity => PosInf
  | NegInfinity => NegInf
  end.

(** [Math.max(1, v)] for an integral [v]. *)
Definition maxOne (v : Integral) : Integral :=
  match v with
  | Int z => Int (Z.max 1 z)
  | NaNInt => NaNInt
  | PosInf => PosInf
  | NegInf => Int 1
  end.

(** [Math.max(1, v)] for any number [v]. *)
Definition maxOneNumber (v : JSNumber) : JSNumber :=
  match v with
  | Finite q => if JS.ltb 1 q then Finite q else Finite 1
  | NaN => NaN
  | PosInfinity => PosInfinity
  | NegInfinity => Finite 1
  end.

Definition toNumber (v : Integral) : JSNumber :=
  match v with
  | Int z => Finite (inject_Z z)
  | NaNInt => NaN
  | PosInf => PosInfinity
  | NegInf => NegInfinity
  end.

(** The double of a level; exact for levels of magnitude up to 2^53,
    which is all a loop counter can reach. *)
Definition ofLevel (level : Z) : float :=
  if (level <? 0)%Z
  then (- of_uint63 (Uint63.of_Z (- level)))%float
  else of_uint63 (Uint63.of_Z level).

Record Coefficients := {
  polyA : float;
  polyB : float;
  polyC : float;
  polyMultiplier : float
}.

(** [calculateXPForLevel], every operation rounded to binary64;
    [Math.pow(level, 2)] is the product of the level with itself. *)
Definition polynomialResult (k : Coefficients) (level : Z) : float :=
  let x := ofLevel level in
  let polynomialValue := (polyA k * (x * x) + polyB k * x + polyC k)%float in
  (polynomialValue * polyMultiplier k)%float.

Definition calculateXPForLevel (k : Coefficients) (level : Z) : Integral :=
  maxOne (floor (value (polynomialResult k level))).

(** The specification's [floor(max(1, ...))] on the same double. *)
Definition xpForLevel_spec (k : Coefficients) (level : Z) : Integral :=
  floor (maxOneNumber (value (polynomialResult k level))).

(** Rounding of an integer to the nearest double, ties to the even
    significand: below 2^53 every integer is a double, above it the
    doubles are the multiples of [2 ^ (log2 |z| - 52)]. *)
Definition round53 (z : Z) : Z :=
  if (Z.abs z <? 2 ^ 53)%Z then z
  else
    let ulp := (2 ^ (Z.log2 (Z.abs z) - 52))%Z in
    let q := (Z.abs z / ulp)%Z in
    let r := (Z.abs z mod ulp)%Z in
    let q' :=
      if (2 * r <? ulp)%Z then q
      else if (ulp <? 2 * r)%Z then (q + 1)%Z
      else if Z.even q then q else (q + 1)%Z in
    (Z.sgn z * (q' * ulp))%Z.

(** A rounded integer that reaches 2^1024 is an infinity. *)
Definition ofInteger (z : Z) : Integral :=
  if (2 ^ 1024 <=? z)%Z then PosInf
  else if (z <=? - 2 ^ 1024)%Z then NegInf
  else Int z.

(** [x + y] on integral numbers. *)
Definition add (x y : Integral) : Integral :=
  match x, y with
  | NaNInt, _ | _, NaNInt => NaNInt
  | PosInf, NegInf | NegInf, PosInf => NaNInt
  | PosInf, _ | _, PosInf => PosInf
  | NegInf, _ | _, NegInf => NegInf
  | Int a, Int b => ofInteger (round53 (a + b))
  end.

(** [x - y] on integral numbers. *)
Definition sub (x y : Integral) : Integral :=
  match y with
  | Int b => add x (Int (- b))
  | NaNInt => NaNInt
  | PosInf => add x NegInf
  | NegInf => add x PosInf
  end.

(** [x <= y] for an integral [x] and any number [y]; a comparison with
    NaN is false. *)
Definition leb (x : Integral) (y : JSNumber) : bool :=
  match x, y with
  | NaNInt, _ | _, NaN => false
  | NegInf, _ | _, PosInfinity => true
  | PosInf, _ | _, NegInfinity => false
  | Int a, Finite q => JS.leb (inject_Z a) q
  end.

(** [calculateTotalXPToLevel]. *)
Definition calculateTotalXPToLevel (k : Coefficients) (targetLevel : Z) : Integral :=
  fold_left (fun totalXP level => add totalXP (calculateXPForLevel k level))
            (levelsUpTo targetLevel) (Int 0).

(** The [while] loop of [calculateLevelFromXP] run for at most [fuel]
    evaluations of its condition: whether it has exited, and the values
    of [level] and [xpUsed] it has reached. *)
Fixpoint levelLoop (k : Coefficients) (fuel : nat) (totalXP : JSNumber)
    (level : Z) (xpUsed : Integral) : bool * Z * Integral :=
  match fuel with
  | O => (false, level, xpUsed)
  | S fuel' =>
      if leb (add xpUsed (calculateXPForLevel k level)) totalXP
      then levelLoop k fuel' totalXP (round53 (level + 1))
                     (add xpUsed (calculateXPForLevel k level))
      else (true, level, xpUsed)
  end.

(** [calculateLevelFromXP]: [level - 1] once the loop has exited, [None]
    while it is still running. *)
Definition calculateLevelFromXP (k : Coefficients) (fuel : nat) (totalXP : JSNumber)
  : option Z :=
  match levelLoop k fuel totalXP 1 (Int 0) with
  | (true, level, _) => Some (level - 1)%Z
  | (false, _, _) => None
  end.

(** The first two fields of [calculateXPProgress] for an integral total
    (the rounded quotient [progressPercent] is left out). *)
Definition xpInLevel (k : Coefficients) (totalXP : Integral) (currentLevel : Z)
  : Integral :=
  sub totalXP (calculateTotalXPToLevel k currentLevel).

(** The total up to [targetLevel] is a finite integer below 2^53: sums
    that stay below 2^53 are not rounded. *)
Definition exactUpTo (k : Coefficients) (targetLevel : Z) : Prop :=
  match calculateTotalXPToLevel k targetLevel with
  | Int total => (total < 2 ^ 53)%Z
  | NaNInt | PosInf | NegInf => False
  end.

(** The "steep curve" preset of the component (65, -165, -6750, 0.82),
    0.82 being the double nearest to it. *)
Definition steepPreset : Coefficients :=
  {| polyA := 65; polyB := -165; polyC := -6750;
     polyMultiplier := 0x1.a3d70a3d70a3dp-1 |}.

(** The default coefficients (0.035, 2.5, 10, 0.5). *)
Definition defaultPreset : Coefficients :=
  {| polyA := 0x1.1eb851eb851ecp-5; polyB := 0x1.4p+1; polyC := 10;
     polyMultiplier := 0x1p-1 |}.

End Double.

(** * Properties *)

(** ** JavaScript arithmetic *)

Lemma JS_ltb_lt x y : JS.ltb x y = true <-> x < y.
Proof.
  unfold JS.ltb. rewrite negb_true_iff, <- not_true_iff_false, Qle_bool_iff.
  split; [apply Qnot_le_lt | apply Qlt_not_le].
Qed.

Lemma JS_ltb_ge x y : JS.ltb x y = false <-> y <= x.
Proof.
  unfold JS.ltb. rewrite negb_false_iff. apply Qle_bool_iff.
Qed.

Lemma JS_leb_le x y : JS.leb x y = true <-> x <= y.
Proof. apply Qle_bool_iff. Qed.

Lemma JS_leb_gt x y : JS.leb x y = false <-> y < x.
Proof.
  unfold JS.leb. rewrite <- not_true_iff_false, Qle_bool_iff.
  split; [apply Qnot_le_lt | apply Qlt_not_le].
Qed.

Lemma JS_floor_spec x : inject_Z (JS.floor x) <= x < inject_Z (JS.floor x + 1).
Proof. split; [apply Qfloor_le | apply Qlt_floor]. Qed.

(** [JS.floor x] is the only integer [n] with [n <= x < n + 1]. *)
Lemma JS_floor_unique x n :
  inject_Z n <= x -> x < inject_Z (n + 1) -> JS.floor x = n.
Proof.
  intros Hlo Hhi. destruct (JS_floor_spec x) as [Flo Fhi].
  assert (H1 : inject_Z n < inject_Z (JS.floor x + 1)) by (eapply Qle_lt_trans; eauto).
  assert (H2 : inject_Z (JS.floor x) < inject_Z (n + 1)) by (eapply Qle_lt_trans; eauto).
  rewrite <- Zlt_Qlt in H1, H2. lia.
Qed.


(** An integer below [x] is below [JS.floor x]. *)
Lemma JS_floor_lb x n : inject_Z n <= x -> (n <= JS.floor x)%Z.
Proof.
  intros H. destruct (JS_floor_spec x) as [_ Fhi].
  assert (H1 : inject_Z n < inject_Z (JS.floor x + 1)) by (eapply Qle_lt_trans; eauto).
  rewrite <- Zlt_Qlt in H1. lia.
Qed.

(** [x] below an integer puts [JS.floor x] strictly below it. *)
Lemma JS_floor_ub x n : x < inject_Z n -> (JS.floor x < n)%Z.
Proof.
  intros H. destruct (JS_floor_spec x) as [Flo _].
  assert (H1 : inject_Z (JS.floor x) < inject_Z n) by (eapply Qle_lt_trans; eauto).
  rewrite <- Zlt_Qlt in H1. lia.
Qed.

Lemma JS_round_unique x n :
  inject_Z n - (1 # 2) <= x -> x < inject_Z n + (1 # 2) -> JS.round x = n.
Proof.
  intros Hlo Hhi. unfold JS.round. apply JS_floor_unique.
  - lra.
  - rewrite inject_Z_plus. change (inject_Z 1) with 1. lra.
Qed.

(** ** Level curve *)

Section LevelCurveFacts.

Variable k : Coefficients.

Lemma calculateXPForLevel_pos level : (1 <= calculateXPForLevel k level)%Z.
Proof. unfold calculateXPForLevel. cbv zeta. lia. Qed.

(** Clamping before or after the floor gives the same integer. *)
Lemma floor_max_commute x : JS.floor (Qmax 1 x) = Z.max 1 (JS.floor x).
Proof.
  destruct (Qlt_le_dec x 1) as [Hlt | Hge].
  - assert (Hm : Qmax 1 x == 1) by (apply Q.max_l; lra).
    unfold JS.floor. rewrite Hm.
    pose proof (JS_floor_ub x 1 Hlt) as Hf. unfold JS.floor in Hf.
    change (Qfloor 1) with 1%Z. lia.
  - assert (Hm : Qmax 1 x == x) by (apply Q.max_r; lra).
    unfold JS.floor. rewrite Hm.
    pose proof (JS_floor_lb x 1 Hge) as Hf. unfold JS.floor in Hf. lia.
Qed.

Lemma levelsUpTo_nonpos target : (target <= 0)%Z -> levelsUpTo target = [].
Proof.
  intros H. unfold levelsUpTo.
  replace (Z.to_nat target) with O by lia. reflexivity.
Qed.

Lemma levelsUpTo_succ target :
  (0 <= target)%Z -> levelsUpTo (target + 1) = levelsUpTo target ++ [(target + 1)%Z].
Proof.
  intros H. unfold levelsUpTo.
  replace (Z.to_nat (target + 1)) with (S (Z.to_nat target)) by lia.
  rewrite seq_S, map_app. cbn [map]. do 2 f_equal. lia.
Qed.

Lemma calculateTotalXPToLevel_nonpos target :
  (target <= 0)%Z -> calculateTotalXPToLevel k target = 0%Z.
Proof.
  intros H. unfold calculateTotalXPToLevel. now rewrite levelsUpTo_nonpos.
Qed.

Lemma calculateTotalXPToLevel_succ target :
  (0 <= target)%Z ->
  calculateTotalXPToLevel k (target + 1)
  = (calculateTotalXPToLevel k target + calculateXPForLevel k (target + 1))%Z.
Proof.
  intros H. unfold calculateTotalXPToLevel.
  rewrite levelsUpTo_succ by assumption. now rewrite fold_left_app.
Qed.


(** Every level costs at least one point, so the totals grow at least
    as fast as the level. *)
Lemma calculateTotalXPToLevel_lower target :
  (0 <= target)%Z -> (target <= calculateTotalXPToLevel k target)%Z.
Proof.
  intros H. pattern target. apply natlike_ind; [| | assumption].
  - rewrite calculateTotalXPToLevel_nonpos; lia.
  - intros x Hx IH. change (Z.succ x) with (x + 1)%Z.
    rewrite calculateTotalXPToLevel_succ by assumption.
    pose proof (calculateXPForLevel_pos (x + 1)). lia.
Qed.

Lemma calculateTotalXPToLevel_mono a b :
  (0 <= a)%Z -> (a <= b)%Z ->
  (calculateTotalXPToLevel k a + (b - a) <= calculateTotalXPToLevel k b)%Z.
Proof.
  intros Ha Hab. replace b with (a + (b - a))%Z by lia.
  assert (Hd : (0 <= b - a)%Z) by lia. revert Hd.
  generalize (b - a)%Z as d. intros d Hd. pattern d.
  apply natlike_ind; [| | assumption].
  - replace (a + 0)%Z with a by lia. lia.
  - intros x Hx IH. replace (a + Z.succ x)%Z with (a + x + 1)%Z by lia.
    rewrite calculateTotalXPToLevel_succ by lia.
    pose proof (calculateXPForLevel_pos (a + x + 1)). lia.
Qed.

(** *** The greedy scan *)

(** More fuel does not change a finished scan. *)
Lemma levelLoop_fuel_mono fuel fuel' totalXP level xpUsed it r :
  levelLoop k fuel totalXP level xpUsed it = Some r ->
  (fuel <= fuel')%nat ->
  levelLoop k fuel' totalXP level xpUsed it = Some r.
Proof.
  revert fuel' level xpUsed it.
  induction fuel as [| fuel IH]; intros fuel' level xpUsed it Hrun Hle.
  - discriminate.
  - destruct fuel' as [| fuel']; [lia |].
    cbn [levelLoop] in *.
    destruct (JS.leb _ totalXP); [| assumption].
    apply IH; [assumption | lia].
Qed.

(** The scan finishes as soon as the fuel exceeds the integer part of
    the XP that is still to be consumed. *)
Lemma levelLoop_terminates fuel totalXP level xpUsed it :
  (Z.to_nat (JS.floor totalXP - xpUsed) < fuel)%nat ->
  exists r, levelLoop k fuel totalXP level xpUsed it = Some r.
Proof.
  revert level xpUsed it.
  induction fuel as [| fuel IH]; intros level xpUsed it Hfuel; [lia |].
  cbn [levelLoop].
  destruct (JS.leb (inject_Z (xpUsed + calculateXPForLevel k level)) totalXP) eqn:Hc.
  - apply JS_leb_le in Hc. apply JS_floor_lb in Hc.
    pose proof (calculateXPForLevel_pos level).
    apply IH. lia.
  - eauto.
Qed.

(** What a finished scan says about its final state, when it starts
    with the XP of the levels below [level] consumed. *)
Lemma levelLoop_result fuel totalXP level xpUsed it level' xpUsed' it' :
  (1 <= level)%Z ->
  xpUsed = calculateTotalXPToLevel k (level - 1) ->
  levelLoop k fuel totalXP level xpUsed it = Some (level', xpUsed', it') ->
  (level <= level')%Z
  /\ xpUsed' = calculateTotalXPToLevel k (level' - 1)
  /\ Z.of_nat it' = (Z.of_nat it + (level' - level))%Z
  /\ totalXP < inject_Z (calculateTotalXPToLevel k level')
  /\ ((level < level')%Z -> inject_Z xpUsed' <= totalXP).
Proof.
  revert level xpUsed it.
  induction fuel as [| fuel IH]; intros level xpUsed it Hlevel Hused Hrun;
    [discriminate |].
  cbn [levelLoop] in Hrun.
  assert (Hnext : (xpUsed + calculateXPForLevel k level)%Z
                  = calculateTotalXPToLevel k level).
  { pose proof (calculateTotalXPToLevel_succ (level - 1) ltac:(lia)) as Hs.
    replace (level - 1 + 1)%Z with level in Hs by lia. now rewrite Hs, Hused. }
  destruct (JS.leb (inject_Z (xpUsed + calculateXPForLevel k level)) totalXP) eqn:Hc.
  - apply IH in Hrun; [| lia | rewrite Hnext; f_equal; lia].
    destruct Hrun as (Hle & Hx & Hit & Hlt & Hin).
    repeat split; try assumption; try lia.
    intros _. destruct (Z.eq_dec (level + 1)%Z level') as [<- | Hne].
    + rewrite Hx. replace (level + 1 - 1)%Z with level by lia.
      rewrite <- Hnext. now apply JS_leb_le.
    + apply Hin. lia.
  - injection Hrun as <- <- <-. apply JS_leb_gt in Hc.
    repeat split; try lia; try assumption.
    now rewrite <- Hnext.
Qed.

Lemma levelScan_total totalXP : exists r, levelScan k totalXP = Some r.
Proof.
  unfold levelScan, levelFuel. apply levelLoop_terminates.
  destruct (Z.le_gt_cases 0 (JS.floor totalXP)); lia.
Qed.

(** The level returned is the one whose cumulative requirement brackets
    the input. *)
Lemma calculateLevelFromXP_spec totalXP :
  let level := calculateLevelFromXP k totalXP in
  (0 <= level)%Z
  /\ Z.of_nat (levelIterations k totalXP) = level
  /\ totalXP < inject_Z (calculateTotalXPToLevel k (level + 1))
  /\ ((0 < level)%Z -> inject_Z (calculateTotalXPToLevel k level) <= totalXP).
Proof.
  unfold calculateLevelFromXP, levelIterations.
  destruct (levelScan_total totalXP) as [[[level xpUsed] it] Hscan].
  rewrite Hscan. cbv zeta.
  unfold levelScan in Hscan.
  apply levelLoop_result in Hscan; [| lia | reflexivity].
  destruct Hscan as (Hle & Hx & Hit & Hlt & Hin).
  replace (level - 1 + 1)%Z with level by lia.
  repeat split; try lia; try assumption.
  intros Hpos. rewrite <- Hx. apply Hin. lia.
Qed.

(** The state in which the scan stops. *)
Lemma levelScan_state totalXP :
  levelScan k totalXP
  = Some ((calculateLevelFromXP k totalXP + 1)%Z,
          calculateTotalXPToLevel k (calculateLevelFromXP k totalXP),
          levelIterations k totalXP).
Proof.
  unfold calculateLevelFromXP, levelIterations.
  destruct (levelScan_total totalXP) as [[[level xpUsed] it] Hscan].
  rewrite Hscan. unfold levelScan in Hscan.
  apply levelLoop_result in Hscan; [| lia | reflexivity].
  destruct Hscan as (_ & -> & _). do 3 f_equal. lia.
Qed.

(** Any level that brackets the input is the one returned. *)
Lemma calculateLevelFromXP_unique totalXP level :
  (0 <= level)%Z ->
  inject_Z (calculateTotalXPToLevel k level) <= totalXP ->
  totalXP < inject_Z (calculateTotalXPToLevel k (level + 1)) ->
  calculateLevelFromXP k totalXP = level.
Proof.
  intros Hlevel Hlo Hhi.
  destruct (calculateLevelFromXP_spec totalXP) as (Hnn & _ & Hlt & Hge).
  set (l := calculateLevelFromXP k totalXP) in *.
  destruct (Z.lt_trichotomy l level) as [Hcmp | [Hcmp | Hcmp]]; [| assumption |].
  - pose proof (calculateTotalXPToLevel_mono (l + 1) level ltac:(lia) ltac:(lia)) as Hm.
    assert (Hq : inject_Z (calculateTotalXPToLevel k (l + 1))
                 <= inject_Z (calculateTotalXPToLevel k level))
      by (rewrite <- Zle_Qle; lia).
    lra.
  - pose proof (calculateTotalXPToLevel_mono (level + 1) l ltac:(lia) ltac:(lia)) as Hm.
    assert (Hq : inject_Z (calculateTotalXPToLevel k (level + 1))
                 <= inject_Z (calculateTotalXPToLevel k l))
      by (rewrite <- Zle_Qle; lia).
    specialize (Hge ltac:(lia)). lra.
Qed.

(** Inputs below the first level's requirement, negative ones included,
    give level 0. *)
Lemma calculateLevelFromXP_small totalXP :
  totalXP < inject_Z (calculateXPForLevel k 1) -> calculateLevelFromXP k totalXP = 0%Z.
Proof.
  intros Hsmall.
  destruct (calculateLevelFromXP_spec totalXP) as (Hnn & _ & _ & Hge).
  destruct (Z.eq_dec (calculateLevelFromXP k totalXP) 0%Z) as [Heq | Hne];
    [assumption | exfalso].
  specialize (Hge ltac:(lia)).
  pose proof (calculateTotalXPToLevel_mono 1 (calculateLevelFromXP k totalXP)
                ltac:(lia) ltac:(lia)) as Hm.
  assert (H1 : calculateTotalXPToLevel k 1 = calculateXPForLevel k 1)
    by exact (calculateTotalXPToLevel_succ 0 ltac:(lia)).
  rewrite H1 in Hm.
  assert (Hq : inject_Z (calculateXPForLevel k 1)
               <= inject_Z (calculateTotalXPToLevel k (calculateLevelFromXP k totalXP)))
    by (rewrite <- Zle_Qle; lia).
  lra.
Qed.

Lemma calculateLevelFromXP_zero : calculateLevelFromXP k 0 = 0%Z.
Proof.
  apply calculateLevelFromXP_small.
  change 0 with (inject_Z 0). rewrite <- Zlt_Qlt.
  pose proof (calculateXPForLevel_pos 1). lia.
Qed.

End LevelCurveFacts.

(** ** Loop ranges *)

Lemma elem_of_indicesBelow n g : g ∈ indicesBelow n <-> (0 <= g < n)%Z.
Proof.
  unfold indicesBelow. rewrite list_elem_of_In, in_map_iff. split.
  - intros (i & <- & Hi). apply in_seq in Hi. lia.
  - intros Hg. exists (Z.to_nat g). split; [lia |]. apply in_seq. lia.
Qed.

Lemma indicesBelow_one : indicesBelow 1 = [0%Z].
Proof. reflexivity. Qed.

Lemma steppedDays_prefix start step n :
  map (fun i => (start + step * Z.of_nat i)%Z) (seq 0 (S n))
  = map (fun i => (start + step * Z.of_nat i)%Z) (seq 0 n)
    ++ [(start + step * Z.of_nat n)%Z].
Proof. now rewrite seq_S, map_app. Qed.

Lemma days_lookup n : (n < 365)%nat -> days !! n = Some (Z.of_nat n + 1)%Z.
Proof.
  intros Hn. unfold days. rewrite list_lookup_fmap.
  rewrite lookup_seq_lt by assumption. reflexivity.
Qed.

Lemma days_take_succ n :
  (n < 365)%nat -> take (S n) days = take n days ++ [(Z.of_nat n + 1)%Z].
Proof. intros Hn. apply take_S_r, days_lookup, Hn. Qed.

(** ** Seeded roller *)

Section RollerFacts.

Context {js : JSMath}.

(** The derived fraction lies in [0, 1). *)
Lemma seedRandom_range seed : 0 <= seedRandom seed < 1.
Proof.
  unfold seedRandom. cbv zeta.
  destruct (JS_floor_spec (Math_sin seed * 10000)) as [Hlo Hhi].
  rewrite inject_Z_plus in Hhi. change (inject_Z 1) with 1 in Hhi.
  split; lra.
Qed.

Lemma rollPlacement_first d seed : 1 <= first d -> rollPlacement d seed = First.
Proof.
  intros Hd. unfold rollPlacement. cbv zeta.
  destruct (seedRandom_range seed) as [_ Hlt].
  assert (Hc : JS.ltb (seedRandom seed) (first d) = true) by (apply JS_ltb_lt; lra).
  now rewrite Hc.
Qed.

Lemma rollPlacement_participation d seed :
  first d <= 0 -> first d + second d <= 0 -> first d + second d + third d <= 0 ->
  rollPlacement d seed = Participation.
Proof.
  intros H1 H2 H3. unfold rollPlacement. cbv zeta.
  destruct (seedRandom_range seed) as [Hge _].
  assert (Hc1 : JS.ltb (seedRandom seed) (first d) = false) by (apply JS_ltb_ge; lra).
  assert (Hc2 : JS.ltb (seedRandom seed) (first d + second d) = false)
    by (apply JS_ltb_ge; lra).
  assert (Hc3 : JS.ltb (seedRandom seed) (first d + second d + third d) = false)
    by (apply JS_ltb_ge; lra).
  now rewrite Hc1, Hc2, Hc3.
Qed.

(** The seasonal multiplier takes three values. *)
Lemma getSeasonalMultiplier_cases month :
  getSeasonalMultiplier month = 8 # 10
  \/ getSeasonalMultiplier month = 12 # 10
  \/ getSeasonalMultiplier month = 1.
Proof.
  unfold getSeasonalMultiplier.
  destruct (_ && _)%Z; [now left |].
  destruct (_ || _)%Z; [right; now left | right; now right].
Qed.

(** The daily wobble stays within [0.70, 1.00]. *)
Lemma getDailyVariation_range day :
  70 # 100 <= getDailyVariation day <= 1.
Proof.
  unfold getDailyVariation.
  destruct (Math_sin_range (inject_Z day * (1 # 10))) as [Hlo Hhi].
  split; lra.
Qed.

End RollerFacts.

(** ** Year simulator *)

Section SimulationFacts.

Context {js : JSMath}.
Variable inp : Inputs.
Variable d : PlacementDistribution.

Abbreviation Log := (gmap AnnotationKey Placement).

(** Inserting the games [l] of one day leaves every other key alone. *)
Lemma fold_insert_lookup (c : Cadence) (day : Z) (v : Z -> Placement)
    (l : list Z) (m : Log) (c' : Cadence) (day' g : Z) :
  fold_left (fun (m : Log) gameIndex => <[(c, day, gameIndex) := v gameIndex]> m) l m
    !! (c', day', g)
  = if decide (c' = c /\ day' = day /\ g ∈ l) then Some (v g) else m !! (c', day', g).
Proof.
  revert m. induction l as [| a l IH]; intros m; cbn [fold_left].
  - case_decide as Hd; [| reflexivity].
    destruct Hd as (_ & _ & Hin). now apply elem_of_nil in Hin.
  - rewrite IH. case_decide as H1; case_decide as H2; try reflexivity.
    + exfalso. apply H2. destruct H1 as (? & ? & ?). repeat split; try assumption.
      now apply elem_of_cons; right.
    + destruct H2 as (-> & -> & Hin). apply elem_of_cons in Hin as [-> | Hin].
      * apply lookup_insert_eq.
      * exfalso. apply H1. now repeat split.
    + apply lookup_insert_ne. intros Heq. injection Heq as <- <- <-.
      apply H2. repeat split. now apply elem_of_cons; left.
Qed.

Lemma rollGames_log (c : Cadence) (day : Z) (seedOf : Z -> Z) (l : list Z) (acc : Q * Log) :
  snd (fold_left (rollGame inp d c day seedOf) l acc)
  = fold_left (fun (m : Log) gameIndex =>
                 <[(c, day, gameIndex) := rollPlacement d (inject_Z (seedOf gameIndex))]> m)
              l (snd acc).
Proof.
  revert acc. induction l as [| a l IH]; intros [tdp log]; cbn [fold_left]; [reflexivity |].
  now rewrite IH.
Qed.

Lemma rollGames_points (c : Cadence) (day : Z) (seedOf : Z -> Z) (l : list Z)
    (acc : Q * Log) :
  fst (fold_left (rollGame inp d c day seedOf) l acc)
  == fst acc + gamesPoints inp d c seedOf l.
Proof.
  revert acc. induction l as [| a l IH]; intros [tdp log]; cbn [fold_left gamesPoints].
  - cbn [fst]. lra.
  - rewrite IH. cbn [rollGame fst]. lra.
Qed.

(** *** The blocks of one day *)

Lemma weeklyBlock_count (day wc : Z) (acc : Q * Log) :
  fst (weeklyBlock inp d day wc acc)
  = if ((day mod 7 =? 0) && (0 <? weeklyGames inp))%Z then (wc + 1)%Z else wc.
Proof. unfold weeklyBlock. cbv zeta. now destruct (_ && _)%Z. Qed.

Lemma monthlyBlock_count (day mc : Z) (acc : Q * Log) :
  fst (monthlyBlock inp d day mc acc)
  = if ((day mod 30 =? 0) && (0 <? monthlyGames inp))%Z then (mc + 1)%Z else mc.
Proof. unfold monthlyBlock. cbv zeta. now destruct (_ && _)%Z. Qed.

Lemma weeklyBlock_log (day wc : Z) (acc : Q * Log) (c' : Cadence) (day' g : Z) :
  snd (snd (weeklyBlock inp d day wc acc)) !! (c', day', g)
  = if decide (c' = Weekly /\ day' = day
               /\ ((day mod 7 = 0 /\ 0 < weeklyGames inp)
                   /\ 0 <= g < adjustedWeeklyGames inp day)%Z)
    then Some (rollPlacement d (inject_Z (weeklySeed inp (wc + 1) g)))
    else snd acc !! (c', day', g).
Proof.
  unfold weeklyBlock. cbv zeta.
  destruct (_ && _)%Z eqn:Hc.
  - apply andb_true_iff in Hc as [H7 Hw]. apply Z.eqb_eq in H7. apply Z.ltb_lt in Hw.
    cbn [snd]. unfold rollGames. rewrite rollGames_log, fold_insert_lookup.
    case_decide as H1; case_decide as H2; try reflexivity; exfalso.
    + apply H2. destruct H1 as (? & ? & Hin). apply elem_of_indicesBelow in Hin.
      repeat split; try assumption; lia.
    + apply H1. destruct H2 as (? & ? & ? & Hin). repeat split; try assumption.
      now apply elem_of_indicesBelow.
  - cbn [snd]. case_decide as H1; [| reflexivity]. exfalso.
    destruct H1 as (_ & _ & (H7 & Hw) & _).
    apply andb_false_iff in Hc as [Hc | Hc].
    + apply Z.eqb_neq in Hc. contradiction.
    + apply Z.ltb_ge in Hc. lia.
Qed.

Lemma monthlyBlock_log (day mc : Z) (acc : Q * Log) (c' : Cadence) (day' g : Z) :
  snd (snd (monthlyBlock inp d day mc acc)) !! (c', day', g)
  = if decide (c' = Monthly /\ day' = day
               /\ ((day mod 30 = 0 /\ 0 < monthlyGames inp)
                   /\ 0 <= g < adjustedMonthlyGames inp day)%Z)
    then Some (rollPlacement d (inject_Z (monthlySeed inp (mc + 1) g)))
    else snd acc !! (c', day', g).
Proof.
  unfold monthlyBlock. cbv zeta.
  destruct (_ && _)%Z eqn:Hc.
  - apply andb_true_iff in Hc as [H30 Hm]. apply Z.eqb_eq in H30. apply Z.ltb_lt in Hm.
    cbn [snd]. unfold rollGames. rewrite rollGames_log, fold_insert_lookup.
    case_decide as H1; case_decide as H2; try reflexivity; exfalso.
    + apply H2. destruct H1 as (? & ? & Hin). apply elem_of_indicesBelow in Hin.
      repeat split; try assumption; lia.
    + apply H1. destruct H2 as (? & ? & ? & Hin). repeat split; try assumption.
      now apply elem_of_indicesBelow.
  - cbn [snd]. case_decide as H1; [| reflexivity]. exfalso.
    destruct H1 as (_ & _ & (H30 & Hm) & _).
    apply andb_false_iff in Hc as [Hc | Hc].
    + apply Z.eqb_neq in Hc. contradiction.
    + apply Z.ltb_ge in Hc. lia.
Qed.

Lemma weeklyBlock_points (day wc : Z) (acc : Q * Log) :
  fst (snd (weeklyBlock inp d day wc acc)) == fst acc + weeklyContribution inp d day wc.
Proof.
  unfold weeklyContribution, weeklyBlock. cbv zeta.
  destruct (_ && _)%Z; cbn [snd fst]; [| lra].
  unfold rollGames. rewrite !rollGames_points. cbn [fst]. lra.
Qed.

Lemma monthlyBlock_points (day mc : Z) (acc : Q * Log) :
  fst (snd (monthlyBlock inp d day mc acc)) == fst acc + monthlyContribution inp d day mc.
Proof.
  unfold monthlyContribution, monthlyBlock. cbv zeta.
  destruct (_ && _)%Z; cbn [snd fst]; [| lra].
  unfold rollGames. rewrite !rollGames_points. cbn [fst]. lra.
Qed.

(** *** One day *)

(** [simulateDay] with its two inner blocks named. *)
Lemma simulateDay_unfold (st : SimState) (day : Z) :
  let w := weeklyBlock inp d day (weekCount st) (dailyBlock inp d day 0, rolled st) in
  let m := monthlyBlock inp d day (monthCount st) (snd w) in
  simulateDay inp d st day
  = {| cumulativePoints := cumulativePoints st + fst (snd m);
       dailyPointsData := dailyPointsData st ++ [cumulativePoints st + fst (snd m)];
       dailyLevelsData :=
         dailyLevelsData st
         ++ [calculateLevelFromXP (coefficients inp) (cumulativePoints st + fst (snd m))];
       weekCount := fst w;
       monthCount := fst m;
       rolled := snd (snd m) |}.
Proof.
  cbv zeta. unfold simulateDay. cbv zeta.
  destruct (weeklyBlock inp d day (weekCount st) (dailyBlock inp d day 0, rolled st))
    as [wc [tdp log]].
  cbn [snd fst].
  destruct (monthlyBlock inp d day (monthCount st) (tdp, log)) as [mc [tdp' log']].
  reflexivity.
Qed.

Lemma simulateDay_points (st : SimState) (day : Z) :
  cumulativePoints (simulateDay inp d st day)
  == cumulativePoints st + dailyContribution inp d day
     + weeklyContribution inp d day (weekCount st)
     + monthlyContribution inp d day (monthCount st).
Proof.
  rewrite simulateDay_unfold. cbn [cumulativePoints].
  rewrite monthlyBlock_points, weeklyBlock_points. cbn [fst].
  unfold dailyContribution. lra.
Qed.

(** *** The run over the days *)

Lemma simulateDays_succ (n : nat) :
  (n < 365)%nat ->
  simulateDays inp d (S n) = simulateDay inp d (simulateDays inp d n) (Z.of_nat n + 1).
Proof.
  intros Hn. unfold simulateDays. rewrite days_take_succ by assumption.
  now rewrite fold_left_app.
Qed.

Lemma chartData_simulateDays : chartData inp d = simulateDays inp d 365.
Proof. unfold chartData, simulateDays. now rewrite take_ge by reflexivity. Qed.

(** The counters are the numbers of the weeks and months completed. *)
Lemma simulateDays_counters (n : nat) :
  (n <= 365)%nat ->
  weekCount (simulateDays inp d n)
  = (if (0 <? weeklyGames inp)%Z then Z.of_nat n / 7 else 0)%Z
  /\ monthCount (simulateDays inp d n)
     = (if (0 <? monthlyGames inp)%Z then Z.of_nat n / 30 else 0)%Z.
Proof.
  induction n as [| n IH]; intros Hn.
  - split; cbn; now destruct (_ <? _)%Z.
  - destruct (IH ltac:(lia)) as [IHw IHm].
    rewrite simulateDays_succ by lia. rewrite simulateDay_unfold.
    cbn [weekCount monthCount].
    rewrite weeklyBlock_count, monthlyBlock_count, IHw, IHm.
    replace (Z.of_nat (S n)) with (Z.of_nat n + 1)%Z by lia.
    split.
    + destruct (0 <? weeklyGames inp)%Z; rewrite ?andb_false_r, ?andb_true_r; [| reflexivity].
      destruct (Z.eqb_spec ((Z.of_nat n + 1) mod 7) 0); Z.to_euclidean_division_equations; lia.
    + destruct (0 <? monthlyGames inp)%Z; rewrite ?andb_false_r, ?andb_true_r; [| reflexivity].
      destruct (Z.eqb_spec ((Z.of_nat n + 1) mod 30) 0); Z.to_euclidean_division_equations; lia.
Qed.

(** The two data arrays hold one entry per simulated day: the running
    total after that day and the level it gives. *)
Lemma simulateDays_data (n i : nat) :
  (n <= 365)%nat -> (i < n)%nat ->
  dailyPointsData (simulateDays inp d n) !! i
  = Some (cumulativePoints (simulateDays inp d (S i)))
  /\ dailyLevelsData (simulateDays inp d n) !! i
     = Some (calculateLevelFromXP (coefficients inp)
               (cumulativePoints (simulateDays inp d (S i))))
  /\ length (dailyPointsData (simulateDays inp d n)) = n
  /\ length (dailyLevelsData (simulateDays inp d n)) = n.
Proof.
  revert i. induction n as [| n IH]; intros i Hn Hi; [lia |].
  assert (Hlen : length (dailyPointsData (simulateDays inp d n)) = n
                 /\ length (dailyLevelsData (simulateDays inp d n)) = n).
  { destruct n as [| n']; [now split |].
    destruct (IH n' ltac:(lia) ltac:(lia)) as (_ & _ & ? & ?). now split. }
  destruct Hlen as [Hlp Hll].
  destruct (Nat.eq_dec i n) as [-> | Hne].
  - rewrite (simulateDays_succ n) by lia. rewrite simulateDay_unfold.
    cbn [dailyPointsData dailyLevelsData cumulativePoints].
    rewrite !length_app, Hlp, Hll. cbn [length].
    rewrite !lookup_app_r by lia. rewrite Hlp, Hll, Nat.sub_diag.
    repeat split; lia.
  - destruct (IH i ltac:(lia) ltac:(lia)) as (Hp & Hl & _ & _).
    rewrite (simulateDays_succ n) by lia. rewrite simulateDay_unfold.
    cbn [dailyPointsData dailyLevelsData].
    rewrite !length_app, Hlp, Hll. cbn [length].
    rewrite !lookup_app_l by lia. repeat split; try assumption; lia.
Qed.

(** Case analysis on the [decide]s of a log lookup. *)
Ltac log_cases :=
  repeat case_decide;
  repeat match goal with
         | H : _ /\ _ |- _ => destruct H
         | H : Weekly = Monthly |- _ => discriminate H
         | H : Monthly = Weekly |- _ => discriminate H
         end;
  subst; try reflexivity; try (exfalso; lia);
  try match goal with
      | H : ~ _ |- _ =>
          solve [exfalso; apply H; repeat split; first [reflexivity | lia]]
      end;
  try (repeat f_equal; Z.to_euclidean_division_equations; lia).

(** The placements rolled so far, week by week. *)
Lemma simulateDays_rolled_weekly (n : nat) (day g : Z) :
  (n <= 365)%nat ->
  rolled (simulateDays inp d n) !! (Weekly, day, g)
  = if decide (((1 <= day <= Z.of_nat n /\ day mod 7 = 0) /\ 0 < weeklyGames inp)
               /\ 0 <= g < adjustedWeeklyGames inp day)%Z
    then Some (rollPlacement d (inject_Z (weeklySeed inp (day / 7) g)))
    else None.
Proof.
  induction n as [| n IH]; intros Hn.
  - cbn. rewrite lookup_empty. case_decide as H1; [lia | reflexivity].
  - rewrite simulateDays_succ by lia. rewrite simulateDay_unfold. cbn [rolled].
    rewrite monthlyBlock_log, weeklyBlock_log. cbn [snd]. rewrite IH by lia. clear IH.
    destruct (simulateDays_counters n ltac:(lia)) as [Hwc _]. rewrite Hwc. clear Hwc.
    destruct (Z.eq_dec day (Z.of_nat n + 1)%Z) as [Hday | Hday];
      (destruct (0 <? weeklyGames inp)%Z eqn:Hw;
       [apply Z.ltb_lt in Hw | apply Z.ltb_ge in Hw]);
      log_cases.
Qed.

(** The placements rolled so far, month by month. *)
Lemma simulateDays_rolled_monthly (n : nat) (day g : Z) :
  (n <= 365)%nat ->
  rolled (simulateDays inp d n) !! (Monthly, day, g)
  = if decide (((1 <= day <= Z.of_nat n /\ day mod 30 = 0) /\ 0 < monthlyGames inp)
               /\ 0 <= g < adjustedMonthlyGames inp day)%Z
    then Some (rollPlacement d (inject_Z (monthlySeed inp (day / 30) g)))
    else None.
Proof.
  induction n as [| n IH]; intros Hn.
  - cbn. rewrite lookup_empty. case_decide as H1; [lia | reflexivity].
  - rewrite simulateDays_succ by lia. rewrite simulateDay_unfold. cbn [rolled].
    rewrite monthlyBlock_log, weeklyBlock_log. cbn [snd]. rewrite IH by lia. clear IH.
    destruct (simulateDays_counters n ltac:(lia)) as [_ Hmc]. rewrite Hmc. clear Hmc.
    destruct (Z.eq_dec day (Z.of_nat n + 1)%Z) as [Hday | Hday];
      (destruct (0 <? monthlyGames inp)%Z eqn:Hm;
       [apply Z.ltb_lt in Hm | apply Z.ltb_ge in Hm]);
      log_cases.
Qed.

End SimulationFacts.

(** ** Annotation generator *)

Section AnnotationFacts.

Context {js : JSMath}.
Variable inp : Inputs.
Variable d : PlacementDistribution.

Abbreviation Log := (gmap AnnotationKey Placement).

Lemma multiple_iff (p x w : Z) :
  (0 < p)%Z -> x = (p * w)%Z <-> (x mod p = 0 /\ x / p = w)%Z.
Proof.
  intros Hp. split.
  - intros ->. rewrite Z.mul_comm. split; [apply Z_mod_mult | apply Z_div_mult; lia].
  - intros [Hm Hd]. rewrite <- Hd. rewrite (Z.div_mod x p) at 1 by lia. lia.
Qed.

Lemma annotateGames_lookup (c : Cadence) (day : Z) (seedOf : Z -> Z) (count : Z)
    (m : Log) (c' : Cadence) (day' g : Z) :
  annotateGames d c day seedOf count m !! (c', day', g)
  = if decide (c' = c /\ day' = day /\ (0 <= g < count)%Z)
    then Some (rollPlacement d (inject_Z (seedOf g)))
    else m !! (c', day', g).
Proof.
  unfold annotateGames. cbv zeta.
  rewrite (fold_insert_lookup c day (fun g => rollPlacement d (inject_Z (seedOf g)))).
  repeat case_decide; try reflexivity; exfalso;
    match goal with
    | H : ~ _, H' : _ /\ _ /\ _ |- _ =>
        apply H; destruct H' as (? & ? & Hin); repeat split; try assumption;
        first [apply elem_of_indicesBelow; assumption
              | apply elem_of_indicesBelow in Hin; lia]
    end.
Qed.

(** The outer loop over the occurrences [p, 2p, ..., n·p] of a cadence:
    the counter ends at [n] and the games of every occurrence are
    annotated with the roll of their own seed. *)
Lemma annotate_occurrences (c : Cadence) (p : Z) (seedFn : Z -> Z -> Z) (count : Z)
    (n : nat) (m : Log) :
  (0 < p)%Z ->
  let r := fold_left
             (fun '(counter, annotations) day =>
                let counter := (counter + 1)%Z in
                (counter, annotateGames d c day (seedFn counter) count annotations))
             (map (fun i => (p + p * Z.of_nat i)%Z) (seq 0 n)) (0%Z, m) in
  fst r = Z.of_nat n
  /\ forall (c' : Cadence) (day' g : Z),
       snd r !! (c', day', g)
       = if decide (c' = c /\ ((1 <= day' / p <= Z.of_nat n /\ day' mod p = 0)
                               /\ 0 <= g < count)%Z)
         then Some (rollPlacement d (inject_Z (seedFn (day' / p)%Z g)))
         else m !! (c', day', g).
Proof.
  intros Hp. induction n as [| n IH].
  - cbn. split; [reflexivity |]. intros c' day' g.
    case_decide as H1; [lia | reflexivity].
  - cbv zeta in *. rewrite steppedDays_prefix, fold_left_app.
    destruct (fold_left _ (map _ (seq 0 n)) (0%Z, m)) as [counter ann].
    destruct IH as [IHc IHl]. cbn [fst snd] in IHc, IHl. subst counter.
    cbn [fold_left fst snd]. split; [lia |]. intros c' day' g.
    rewrite annotateGames_lookup, IHl.
    pose proof (multiple_iff p day' (Z.of_nat n + 1) Hp) as Hmul.
    replace (p * (Z.of_nat n + 1))%Z with (p + p * Z.of_nat n)%Z in Hmul by lia.
    destruct (decide (day' = (p + p * Z.of_nat n)%Z)) as [Hday | Hday].
    + apply Hmul in Hday as Hdm. destruct Hdm as [Hmod Hdiv].
      rewrite Hdiv.
      repeat case_decide; try reflexivity; exfalso;
        repeat match goal with H : _ /\ _ |- _ => destruct H end;
        try lia;
        match goal with
        | H : ~ _ |- _ => solve [apply H; repeat split; first [assumption | lia]]
        end.
    + assert (Hnd : ~ (day' mod p = 0 /\ day' / p = Z.of_nat n + 1)%Z) by tauto.
      repeat case_decide; try reflexivity; exfalso;
        repeat match goal with H : _ /\ _ |- _ => destruct H end;
        try lia;
        match goal with
        | H : ~ _ |- _ => solve [apply H; repeat split; first [assumption | lia]]
        end.
Qed.

End AnnotationFacts.

(** ** The engine on the component's default inputs *)

Example default_xp_for_levels :
  map (calculateXPForLevel (coefficients defaultInputs)) [1; 2; 3; 10; 100]%Z
  = [6; 7; 8; 19; 305]%Z.
Proof. vm_compute. reflexivity. Qed.

Example default_total_xp :
  map (calculateTotalXPToLevel (coefficients defaultInputs)) [0; 1; 2; 3; -4]%Z
  = [0; 6; 13; 21; 0]%Z.
Proof. vm_compute. reflexivity. Qed.

Example default_level_scan :
  levelScan (coefficients defaultInputs) 100 = Some (9%Z, 85%Z, 8%nat)
  /\ levelScan (coefficients defaultInputs) (-5) = Some (1%Z, 0%Z, 0%nat)
  /\ calculateLevelFromXP (coefficients defaultInputs) (13 # 1) = 2%Z
  /\ calculateLevelFromXP (coefficients defaultInputs) (129 # 10) = 1%Z.
Proof. vm_compute. repeat split. Qed.

Example default_first_days :
  take 8 (dailyPointsData (simulateYear (js := triangleMath) defaultInputs))
  = [1; 2; 4; 6; 8; 10; 69; 71].
Proof. vm_compute. reflexivity. Qed.

Example default_year_end :
  dailyPointsData (simulateYear (js := triangleMath) defaultInputs) !! 364%nat = Some 3681
  /\ finalLevel (js := triangleMath) defaultInputs = 58%Z
  /\ avgPointsPerGame (js := triangleMath) defaultInputs = Finite 4.
Proof. vm_compute. repeat split. Qed.

Example default_annotation_count :
  size (generateGameAnnotations (js := triangleMath) defaultInputs (distribution Average))
  = (52 * 3 + 12 * 1)%nat.
Proof. vm_compute. reflexivity. Qed.

(** The simulator rolls a seasonally adjusted number of games, so on a
    summer Sunday it rolls fewer games than are annotated. *)
Example default_summer_week :
  adjustedWeeklyGames (js := triangleMath) defaultInputs 182 = 2%Z
  /\ rolled (simulateYear (js := triangleMath) defaultInputs) !! (Weekly, 182%Z, 2%Z) = None
  /\ is_Some (generateGameAnnotations (js := triangleMath) defaultInputs
                (distribution Average) !! (Weekly, 182%Z, 2%Z)).
Proof. vm_compute. repeat split. eexists. reflexivity. Qed.

(** ** Binary64 rounding of integers *)

(** An integer of magnitude below 2^53 is a double. *)
Lemma round53_small (z : Z) : (Z.abs z < 2 ^ 53)%Z -> Double.round53 z = z.
Proof.
  intros Hz. unfold Double.round53.
  destruct (Z.ltb_spec (Z.abs z) (2 ^ 53)); [reflexivity | lia].
Qed.

(** Rounding does not take an integer from 2^53 on below 2^53. *)
Lemma round53_large (z : Z) : (2 ^ 53 <= z)%Z -> (2 ^ 53 <= Double.round53 z)%Z.
Proof.
  intros Hz. unfold Double.round53.
  assert (Habs : Z.abs z = z) by lia. rewrite Habs.
  destruct (Z.ltb_spec z (2 ^ 53)); [lia |].
  assert (Hlog : (53 <= Z.log2 z)%Z) by (apply Z.log2_le_pow2; lia).
  set (e := (Z.log2 z - 52)%Z).
  assert (He : (1 <= e)%Z) by (unfold e; lia).
  assert (Hulp : (2 <= 2 ^ e)%Z).
  { change 2%Z with (2 ^ 1)%Z at 1. apply Z.pow_le_mono_r; lia. }
  assert (Hq : (2 ^ 52 <= z / 2 ^ e)%Z).
  { apply Z.div_le_lower_bound; [lia |].
    rewrite <- Z.pow_add_r by lia.
    replace (e + 52)%Z with (Z.log2 z) by (unfold e; lia).
    apply Z.log2_spec. lia. }
  cbv zeta.
  assert (Hsgn : Z.sgn z = 1%Z) by (apply Z.sgn_pos; lia). rewrite Hsgn.
  set (q := (z / 2 ^ e)%Z) in *.
  assert (Hq' : (q <= (if (2 * (z mod 2 ^ e) <? 2 ^ e)%Z then q
                       else if (2 ^ e <? 2 * (z mod 2 ^ e))%Z then q + 1
                            else if Z.even q then q else q + 1))%Z).
  { destruct (_ <? _)%Z; [lia |]. destruct (_ <? _)%Z; [lia |].
    destruct (Z.even q); lia. }
  change (2 ^ 53)%Z with (2 ^ 52 * 2)%Z. nia.
Qed.

(** 2^53 and -2^53 are doubles too. *)
Lemma round53_exact (z : Z) : (Z.abs z <= 2 ^ 53)%Z -> Double.round53 z = z.
Proof.
  intros Hz. destruct (Z.eq_dec (Z.abs z) (2 ^ 53)%Z) as [Heq | Hne].
  - destruct (Z.abs_spec z) as [[_ Habs] | [_ Habs]]; rewrite Habs in Heq.
    + rewrite Heq. vm_compute. reflexivity.
    + replace z with (- 2 ^ 53)%Z by lia. vm_compute. reflexivity.
  - apply round53_small. lia.
Qed.

Lemma Double_ofInteger_small (z : Z) :
  (Z.abs z < 2 ^ 1024)%Z -> Double.ofInteger z = Double.Int z.
Proof.
  intros Hz. unfold Double.ofInteger.
  destruct (Z.leb_spec (2 ^ 1024) z); [lia |].
  destruct (Z.leb_spec z (- 2 ^ 1024)); [lia | reflexivity].
Qed.

Lemma pow53_lt_pow1024 : (2 ^ 53 < 2 ^ 1024)%Z.
Proof. apply Z.pow_lt_mono_r; lia. Qed.

(** A sum of magnitude below 2^53 is exact; a sum from 2^53 on stays
    there or overflows. *)
Lemma Double_add_exact (a b : Z) :
  (Z.abs (a + b) < 2 ^ 53)%Z -> Double.add (Double.Int a) (Double.Int b) = Double.Int (a + b).
Proof.
  intros H. cbn [Double.add]. rewrite round53_small by assumption.
  apply Double_ofInteger_small. pose proof pow53_lt_pow1024. lia.
Qed.

Lemma Double_add_beyond (a b : Z) :
  (2 ^ 53 <= a + b)%Z ->
  Double.add (Double.Int a) (Double.Int b) = Double.PosInf
  \/ exists s, Double.add (Double.Int a) (Double.Int b) = Double.Int s /\ (2 ^ 53 <= s)%Z.
Proof.
  intros H. cbn [Double.add]. pose proof (round53_large _ H) as Hr.
  unfold Double.ofInteger.
  destruct (Z.leb_spec (2 ^ 1024) (Double.round53 (a + b))); [now left |].
  destruct (Z.leb_spec (Double.round53 (a + b)) (- 2 ^ 1024)); [lia |].
  right. eauto.
Qed.

(** The sum of two integral doubles, computed by the primitive floats,
    is the rounded sum of [Double.add]: checked on sums around 2^53,
    2^54 and 1e16, ties included. *)
Example Double_add_checked :
  forallb (fun '(a, b) =>
             match Double.value (Double.ofLevel a + Double.ofLevel b)%float,
                   Double.toNumber (Double.add (Double.Int a) (Double.Int b)) with
             | Finite x, Finite y => Qeq_bool x y
             | _, _ => false
             end)
          [(2 ^ 53, 1); (2 ^ 53, 2); (2 ^ 53, 3); (2 ^ 53, 5); (2 ^ 53 - 1, 1);
           (2 ^ 53 - 1, 2 ^ 53 - 1); (2 ^ 54, 1); (2 ^ 54, 2); (2 ^ 54, 3);
           (2 ^ 54, 6); (10 ^ 16, 1); (10 ^ 16, 3); (10 ^ 16, 10);
           (- 2 ^ 53, -1); (- 2 ^ 53, -3); (2 ^ 53, -1); (7, 8); (0, 0)]%Z
  = true.
Proof. vm_compute. reflexivity. Qed.

(** At the top of the range the sum overflows from the midpoint between
    the largest double and 2^1024 on. *)
Example Double_add_overflow_checked :
  Double.value (0x1p1023 + 0x1p1023)%float = PosInfinity
  /\ Double.add (Double.Int (2 ^ 1023)) (Double.Int (2 ^ 1023)) = Double.PosInf
  /\ Double.value (0x1.fffffffffffffp1023 + 0x1p970)%float = PosInfinity
  /\ Double.add (Double.Int (2 ^ 1024 - 2 ^ 971)) (Double.Int (2 ^ 970)) = Double.PosInf
  /\ Double.value (0x1.fffffffffffffp1023 + 0x1p969)%float
     = Double.value 0x1.fffffffffffffp1023%float
  /\ Double.add (Double.Int (2 ^ 1024 - 2 ^ 971)) (Double.Int (2 ^ 969))
     = Double.Int (2 ^ 1024 - 2 ^ 971).
Proof. repeat split; vm_compute; reflexivity. Qed.

(** ** The level curve on binary64 numbers *)

(** Clamping before or after the floor gives the same number, NaN and
    the infinities included. *)
Lemma maxOne_floor_commute (v : JSNumber) :
  Double.maxOne (Double.floor v) = Double.floor (Double.maxOneNumber v).
Proof.
  destruct v as [q | | |]; cbn [Double.maxOne Double.floor Double.maxOneNumber];
    try reflexivity.
  destruct (JS.ltb 1 q) eqn:Hq; cbn [Double.floor]; f_equal.
  - apply JS_ltb_lt in Hq.
    assert (H1 : (1 <= Qfloor q)%Z)
      by (apply (JS_floor_lb q 1); change (inject_Z 1) with 1; lra).
    unfold JS.floor in H1. lia.
  - apply JS_ltb_ge in Hq. destruct (Qlt_le_dec q 1) as [Hlt | Hge].
    + pose proof (JS_floor_ub q 1 Hlt) as Hf. unfold JS.floor in Hf.
      change (Qfloor 1) with 1%Z. lia.
    + assert (Heq : q == 1) by lra. rewrite Heq. reflexivity.
Qed.

Section DoubleFacts.

Variable k : Double.Coefficients.

(** A level costs at least one point, or an infinity of points, or NaN. *)
Lemma Double_calculateXPForLevel_range (level : Z) :
  match Double.calculateXPForLevel k level with
  | Double.Int z => (1 <= z)%Z
  | Double.NaNInt => Double.value (Double.polynomialResult k level) = NaN
  | Double.PosInf => Double.value (Double.polynomialResult k level) = PosInfinity
  | Double.NegInf => False
  end.
Proof.
  unfold Double.calculateXPForLevel.
  destruct (Double.value (Double.polynomialResult k level)) as [q | | |];
    cbn [Double.floor Double.maxOne]; try reflexivity; lia.
Qed.

Lemma Double_calculateTotalXPToLevel_nonpos (target : Z) :
  (target <= 0)%Z -> Double.calculateTotalXPToLevel k target = Double.Int 0.
Proof.
  intros H. unfold Double.calculateTotalXPToLevel. now rewrite levelsUpTo_nonpos.
Qed.

Lemma Double_calculateTotalXPToLevel_succ (target : Z) :
  (0 <= target)%Z ->
  Double.calculateTotalXPToLevel k (target + 1)
  = Double.add (Double.calculateTotalXPToLevel k target)
               (Double.calculateXPForLevel k (target + 1)).
Proof.
  intros H. unfold Double.calculateTotalXPToLevel.
  rewrite levelsUpTo_succ by assumption. now rewrite fold_left_app.
Qed.

(** Adding a level's XP to a non-negative integral total gives a larger
    integer when the sum stays below 2^53, and otherwise an integer of at
    least 2^53, an infinity or NaN. *)
Lemma Double_add_level (s : Z) (level : Z) :
  (0 <= s)%Z ->
  match Double.add (Double.Int s) (Double.calculateXPForLevel k level) with
  | Double.Int t =>
      exists x, Double.calculateXPForLevel k level = Double.Int x /\ (1 <= x)%Z
                /\ ((t = s + x)%Z \/ (2 ^ 53 <= s + x /\ 2 ^ 53 <= t)%Z)
  | Double.NaNInt | Double.PosInf => True
  | Double.NegInf => False
  end.
Proof.
  intros Hs. pose proof (Double_calculateXPForLevel_range level) as Hx.
  destruct (Double.calculateXPForLevel k level) as [x | | |];
    cbn [Double.add]; try exact I; try contradiction.
  destruct (Z_lt_le_dec (s + x) (2 ^ 53)) as [Hlt | Hge].
  - change (Double.ofInteger (Double.round53 (s + x)))
      with (Double.add (Double.Int s) (Double.Int x)).
    rewrite Double_add_exact by lia. exists x. auto.
  - change (Double.ofInteger (Double.round53 (s + x)))
      with (Double.add (Double.Int s) (Double.Int x)).
    destruct (Double_add_beyond s x Hge) as [-> | (t & -> & Ht)]; [exact I |].
    exists x. auto.
Qed.

(** The total up to a level is a non-negative integer, an infinity or
    NaN. *)
Lemma Double_calculateTotalXPToLevel_range (target : Z) :
  match Double.calculateTotalXPToLevel k target with
  | Double.Int s => (0 <= s)%Z
  | Double.NaNInt | Double.PosInf => True
  | Double.NegInf => False
  end.
Proof.
  destruct (Z_le_gt_dec target 0) as [Hle | Hgt].
  { rewrite Double_calculateTotalXPToLevel_nonpos by assumption. lia. }
  assert (H0 : (0 <= target)%Z) by lia. clear Hgt. pattern target.
  apply natlike_ind; [| | assumption].
  - rewrite Double_calculateTotalXPToLevel_nonpos; lia.
  - intros x Hx IH. change (Z.succ x) with (x + 1)%Z.
    rewrite Double_calculateTotalXPToLevel_succ by assumption.
    destruct (Double.calculateTotalXPToLevel k x) as [s | | |];
      try contradiction.
    + pose proof (Double_add_level s (x + 1) IH) as Hadd.
      destruct (Double.add _ _) as [t | | |]; try exact I; try contradiction.
      destruct Hadd as (y & _ & Hy & [-> | [_ Ht]]); [lia |].
      assert (0 < 2 ^ 53)%Z by lia. lia.
    + cbn [Double.add]. exact I.
    + pose proof (Double_calculateXPForLevel_range (x + 1)) as Hr.
      destruct (Double.calculateXPForLevel k (x + 1)); cbn [Double.add];
        try exact I; contradiction.
Qed.

(** A total below 2^53 was reached without rounding: the total of the
    level before is an integer, the level's XP is an integer, and the
    total is their sum. *)
Lemma Double_exact_step (target total : Z) :
  (0 <= target)%Z ->
  Double.calculateTotalXPToLevel k (target + 1) = Double.Int total ->
  (total < 2 ^ 53)%Z ->
  exists s x : Z,
    Double.calculateTotalXPToLevel k target = Double.Int s
    /\ Double.calculateXPForLevel k (target + 1) = Double.Int x
    /\ (0 <= s)%Z /\ (1 <= x)%Z /\ total = (s + x)%Z.
Proof.
  intros H0 Htotal Hlt.
  rewrite Double_calculateTotalXPToLevel_succ in Htotal by assumption.
  pose proof (Double_calculateTotalXPToLevel_range target) as Hs.
  destruct (Double.calculateTotalXPToLevel k target) as [s | | |];
    try contradiction.
  - pose proof (Double_add_level s (target + 1) Hs) as Hadd.
    rewrite Htotal in Hadd. destruct Hadd as (x & Hx & Hx1 & [-> | [_ Hbig]]).
    + exists s, x. auto.
    + lia.
  - cbn [Double.add] in Htotal. discriminate.
  - pose proof (Double_calculateXPForLevel_range (target + 1)) as Hr.
    destruct (Double.calculateXPForLevel k (target + 1)); cbn [Double.add] in Htotal;
      try discriminate; contradiction.
Qed.

Lemma Double_exactUpTo_iff (target : Z) :
  Double.exactUpTo k target
  <-> exists total : Z,
        Double.calculateTotalXPToLevel k target = Double.Int total
        /\ (total < 2 ^ 53)%Z.
Proof.
  unfold Double.exactUpTo. split.
  - destruct (Double.calculateTotalXPToLevel k target) as [t | | |];
      try contradiction.
    intros Ht. exists t. auto.
  - intros (t & -> & Ht). assumption.
Qed.

(** Exactness is inherited by the levels below, and in the exact range
    the totals grow by at least one point per level. *)
Lemma Double_exact_mono (a b : Z) :
  (0 <= a)%Z -> (a <= b)%Z -> Double.exactUpTo k b ->
  exists s t : Z,
    Double.calculateTotalXPToLevel k a = Double.Int s
    /\ Double.calculateTotalXPToLevel k b = Double.Int t
    /\ (0 <= s)%Z /\ (s + (b - a) <= t)%Z /\ (t < 2 ^ 53)%Z.
Proof.
  intros Ha Hab. replace b with (a + (b - a))%Z by lia.
  assert (Hd : (0 <= b - a)%Z) by lia. revert Hd.
  generalize (b - a)%Z as d. intros d Hd. pattern d.
  apply natlike_ind; [| | assumption].
  - replace (a + 0)%Z with a by lia. intros (t & Ht & Hlt)%Double_exactUpTo_iff.
    pose proof (Double_calculateTotalXPToLevel_range a) as Hr. rewrite Ht in Hr.
    exists t, t. repeat split; try assumption; lia.
  - intros x Hx IH. replace (a + Z.succ x)%Z with (a + x + 1)%Z by lia.
    intros (t & Ht & Hlt)%Double_exactUpTo_iff.
    destruct (Double_exact_step (a + x) t ltac:(lia) Ht Hlt)
      as (s' & y & Hs' & Hy & Hs'0 & Hy1 & ->).
    destruct IH as (s & t' & Hs & Ht' & Hs0 & Hst & _).
    { apply Double_exactUpTo_iff. exists s'. split; [assumption | lia]. }
    rewrite Hs' in Ht'. injection Ht' as <-.
    exists s, (s' + y)%Z. repeat split; try assumption; lia.
Qed.

Lemma Double_exactUpTo_le (a b : Z) :
  (a <= b)%Z -> Double.exactUpTo k b -> Double.exactUpTo k a.
Proof.
  intros Hab Hb. destruct (Z_le_gt_dec a 0) as [Hle | Hgt].
  - apply Double_exactUpTo_iff. exists 0%Z.
    split; [now apply Double_calculateTotalXPToLevel_nonpos | lia].
  - destruct (Double_exact_mono a b ltac:(lia) Hab Hb) as (s & t & Hs & _ & _ & Hst & Ht).
    apply Double_exactUpTo_iff. exists s. split; [assumption | lia].
Qed.

(** In the exact range a total is at least its level, so the level is
    below 2^53 too. *)
Lemma Double_exact_level_bound (target : Z) :
  Double.exactUpTo k target -> (target < 2 ^ 53)%Z.
Proof.
  intros H. destruct (Z_le_gt_dec target 0) as [Hle | Hgt].
  - assert (0 < 2 ^ 53)%Z by lia. lia.
  - destruct (Double_exact_mono 0 target ltac:(lia) ltac:(lia) H)
      as (s & t & Hs & _ & Hs0 & Hst & Ht). lia.
Qed.

End DoubleFacts.

(** *** The greedy scan on binary64 numbers *)

Lemma Double_leb_mono (a b : Z) (y : JSNumber) :
  (a <= b)%Z -> Double.leb (Double.Int b) y = true -> Double.leb (Double.Int a) y = true.
Proof.
  intros Hab. destruct y as [q | | |]; cbn [Double.leb]; try (intros; assumption).
  rewrite !JS_leb_le. intros Hb. apply Qle_trans with (inject_Z b); [| assumption].
  now rewrite <- Zle_Qle.
Qed.

Section DoubleScanFacts.

Variable k : Double.Coefficients.

(** More fuel does not change a finished scan. *)
Lemma Double_levelLoop_fuel_mono (fuel fuel' : nat) (totalXP : JSNumber)
    (level : Z) (xpUsed : Double.Integral) (level' : Z) (xpUsed' : Double.Integral) :
  Double.levelLoop k fuel totalXP level xpUsed = (true, level', xpUsed') ->
  (fuel <= fuel')%nat ->
  Double.levelLoop k fuel' totalXP level xpUsed = (true, level', xpUsed').
Proof.
  revert fuel' level xpUsed.
  induction fuel as [| fuel IH]; intros fuel' level xpUsed Hrun Hle.
  - discriminate.
  - destruct fuel' as [| fuel']; [lia |].
    cbn [Double.levelLoop] in *.
    destruct (Double.leb _ totalXP); [| assumption].
    apply IH; [assumption | lia].
Qed.

(** A level counter that has reached 2^53 stays there or above. *)
Lemma Double_levelLoop_level_large (fuel : nat) (totalXP : JSNumber)
    (level : Z) (xpUsed : Double.Integral) (b : bool) (level' : Z)
    (xpUsed' : Double.Integral) :
  (2 ^ 53 <= level)%Z ->
  Double.levelLoop k fuel totalXP level xpUsed = (b, level', xpUsed') ->
  (2 ^ 53 <= level')%Z.
Proof.
  revert level xpUsed. induction fuel as [| fuel IH]; intros level xpUsed Hl Hrun;
    cbn [Double.levelLoop] in Hrun.
  - injection Hrun as _ <- _. assumption.
  - destruct (Double.leb _ totalXP).
    + apply IH in Hrun; [assumption |]. apply round53_large. lia.
    + injection Hrun as _ <- _. assumption.
Qed.

(** What a finished scan has computed, as long as the level it returns
    is below 2^53: the loop has consumed the total of the levels before
    [level'], the total of [level'] exceeds [totalXP] (or the comparison
    involves NaN), and the total before did not. *)
Lemma Double_levelLoop_result (fuel : nat) (totalXP : JSNumber)
    (level : Z) (level' : Z) (xpUsed' : Double.Integral) :
  (1 <= level)%Z ->
  Double.levelLoop k fuel totalXP level (Double.calculateTotalXPToLevel k (level - 1))
  = (true, level', xpUsed') ->
  (level' < 2 ^ 53)%Z ->
  (level <= level')%Z
  /\ xpUsed' = Double.calculateTotalXPToLevel k (level' - 1)
  /\ Double.leb (Double.calculateTotalXPToLevel k level') totalXP = false
  /\ (level < level' ->
      Double.leb (Double.calculateTotalXPToLevel k (level' - 1)) totalXP = true)%Z.
Proof.
  revert level. induction fuel as [| fuel IH]; intros level Hl Hrun Hbound;
    cbn [Double.levelLoop] in Hrun; [discriminate |].
  assert (Hstep : Double.add (Double.calculateTotalXPToLevel k (level - 1))
                             (Double.calculateXPForLevel k level)
                  = Double.calculateTotalXPToLevel k level).
  { replace level with (level - 1 + 1)%Z at 2 3 by lia.
    now rewrite Double_calculateTotalXPToLevel_succ by lia. }
  rewrite Hstep in Hrun.
  destruct (Double.leb (Double.calculateTotalXPToLevel k level) totalXP) eqn:Hcmp.
  - destruct (Z_lt_le_dec (level + 1) (2 ^ 53)) as [Hlt | Hge].
    + rewrite round53_small in Hrun by lia.
      replace level with (level + 1 - 1)%Z in Hrun at 2 by lia.
      destruct (IH (level + 1)%Z ltac:(lia) Hrun Hbound) as (Hle & Hx & Hhi & Hlo).
      repeat split; try assumption; [lia |]. intros _.
      destruct (Z.eq_dec (level + 1)%Z level') as [<- | Hne].
      * now replace (level + 1 - 1)%Z with level by lia.
      * apply Hlo. lia.
    + apply Double_levelLoop_level_large in Hrun; [lia |].
      apply round53_large. lia.
  - injection Hrun as <- <-. repeat split; try assumption; lia.
Qed.

(** Within the exact range the scan walks up to the level whose totals
    bracket [totalXP]. *)
Lemma Double_levelLoop_exact (L : Z) (totalXP : JSNumber) (fuel : nat) (level : Z) :
  Double.exactUpTo k (L + 1) ->
  (1 <= level <= L + 1)%Z ->
  Double.leb (Double.calculateTotalXPToLevel k L) totalXP = true ->
  Double.leb (Double.calculateTotalXPToLevel k (L + 1)) totalXP = false ->
  (Z.to_nat (L + 1 - level) < fuel)%nat ->
  Double.levelLoop k fuel totalXP level (Double.calculateTotalXPToLevel k (level - 1))
  = (true, (L + 1)%Z, Double.calculateTotalXPToLevel k L).
Proof.
  intros Hexact Hlevel Hlo Hhi. revert level Hlevel.
  induction fuel as [| fuel IH]; intros level Hlevel Hfuel; [lia |].
  cbn [Double.levelLoop].
  assert (Hstep : Double.add (Double.calculateTotalXPToLevel k (level - 1))
                             (Double.calculateXPForLevel k level)
                  = Double.calculateTotalXPToLevel k level).
  { replace level with (level - 1 + 1)%Z at 2 3 by lia.
    now rewrite Double_calculateTotalXPToLevel_succ by lia. }
  rewrite Hstep.
  destruct (Z.eq_dec level (L + 1)%Z) as [-> | Hne].
  - rewrite Hhi. now replace (L + 1 - 1)%Z with L by lia.
  - assert (Hcmp : Double.leb (Double.calculateTotalXPToLevel k level) totalXP = true).
    { assert (HexL : Double.exactUpTo k L)
        by (apply Double_exactUpTo_le with (L + 1)%Z; [lia | assumption]).
      destruct (Double_exact_mono k level L ltac:(lia) ltac:(lia) HexL)
        as (s & t & Hs & Ht & _ & Hst & _).
      rewrite Hs. rewrite Ht in Hlo. apply Double_leb_mono with t; [lia | assumption]. }
    rewrite Hcmp.
    pose proof (Double_exact_level_bound k (L + 1) Hexact) as Hb.
    rewrite round53_small by lia.
    replace level with (level + 1 - 1)%Z at 2 by lia.
    apply IH; lia.
Qed.

(** For a finite total below 2^53 the scan ends: every pass of the loop
    adds at least one point to [xpUsed] without rounding, or makes the
    condition fail. *)
Lemma Double_levelLoop_terminates (q : Q) (fuel : nat) (level s : Z) :
  q < inject_Z (2 ^ 53) ->
  (0 <= s)%Z -> (1 <= level <= s + 1)%Z ->
  (Z.to_nat (Qfloor q - s) < fuel)%nat ->
  exists level' s' : Z,
    Double.levelLoop k fuel (Finite q) level (Double.Int s)
    = (true, level', Double.Int s')
    /\ (level <= level')%Z /\ (level' - level <= s' - s)%Z
    /\ (s' = s \/ s' <= Qfloor q)%Z.
Proof.
  intros Hq. revert level s.
  induction fuel as [| fuel IH]; intros level s Hs Hlevel Hfuel; [lia |].
  cbn [Double.levelLoop].
  assert (Hfq : (Qfloor q < 2 ^ 53)%Z) by (apply (JS_floor_ub q); assumption).
  pose proof (Double_add_level k s level Hs) as Hadd.
  destruct (Double.add (Double.Int s) (Double.calculateXPForLevel k level))
    as [t | | |] eqn:Ht; cbn [Double.leb]; try contradiction.
  - destruct Hadd as (x & Hx & Hx1 & Hsum).
    destruct (JS.leb (inject_Z t) q) eqn:Hcmp.
    + apply JS_leb_le in Hcmp. pose proof (JS_floor_lb q t Hcmp) as Htq.
      unfold JS.floor in Htq.
      assert (Hts : t = (s + x)%Z) by (destruct Hsum as [-> | [_ Hbig]]; lia).
      rewrite round53_exact by lia.
      destruct (IH (level + 1)%Z t ltac:(lia) ltac:(lia) ltac:(lia))
        as (level' & s' & Hrun & Hle & Hdiff & Hor).
      exists level', s'. repeat split; try assumption; lia.
    + exists level, s. repeat split; try lia.
  - exists level, s. repeat split; try lia.
  - exists level, s. repeat split; try lia.
Qed.

End DoubleScanFacts.

(** * Specification properties *)

(** ** Level curve *)

(** C4, counterexample: the code's value is not floor(max(1, ·)) of the
    real number (a·L² + b·L + c) · multiplier.  For the "steep curve"
    preset (65, -165, -6750, 0.82) and level 51 the real formula gives
    126198 (153900 · 0.82 = 126198 exactly), the code 126197, because the
    double product is just below 126198; and the result need not be a
    number at all: with a = 2^1023, b = c = 0 and multiplier 0, level 2
    gives NaN (the square overflows and Infinity · 0 is NaN). *)
Lemma xpForLevel_real_formula_differs :
  xpForLevel_spec {| polyA := 65; polyB := -165; polyC := -6750;
                     polyMultiplier := 82 # 100 |} 51 = 126198%Z
  /\ Double.calculateXPForLevel Double.steepPreset 51 = Double.Int 126197
  /\ Double.calculateXPForLevel
       {| Double.polyA := 0x1p1023; Double.polyB := 0; Double.polyC := 0;
          Double.polyMultiplier := 0 |} 2 = Double.NaNInt.
Proof. repeat split; vm_compute; reflexivity. Qed.

(** C4, amended: for every level L from 1 to 2^53 and any binary64
    coefficients, with r the double that (a·L² + b·L + c) · multiplier
    evaluates to, [calculateXPForLevel] is max(1, floor(r)), which is the
    same as floor(max(1, r)); it is an integer of at least 1 unless r is
    +Infinity or NaN, and then it is +Infinity or NaN. *)
Theorem xpForLevel_clamp_on_doubles (k : Double.Coefficients) (L : Z) :
  (1 <= L <= 2 ^ 53)%Z ->
  Double.calculateXPForLevel k L = Double.xpForLevel_spec k L
  /\ match Double.calculateXPForLevel k L with
     | Double.Int z => (1 <= z)%Z
     | Double.NaNInt => Double.value (Double.polynomialResult k L) = NaN
     | Double.PosInf => Double.value (Double.polynomialResult k L) = PosInfinity
     | Double.NegInf => False
     end.
Proof.
  intros _. split.
  - apply maxOne_floor_commute.
  - apply Double_calculateXPForLevel_range.
Qed.

Lemma xpForLevel_clamp_on_doubles_witness :
  Double.calculateXPForLevel Double.steepPreset 51
  = Double.xpForLevel_spec Double.steepPreset 51.
Proof.
  refine (proj1 (xpForLevel_clamp_on_doubles Double.steepPreset 51 _)).
  vm_compute. split; discriminate.
Defined.



(** C3, counterexample: with a = 2^1017, b = c = 0 and multiplier 1 the
    XP of the levels 1..8 is finite and increasing (L² · 2^1017), but the
    total to reach level 7 overflows to Infinity, and the scan of that
    total never returns 7: every comparison with Infinity succeeds, so
    the loop is past level 8 when it ends, if it ends. *)
Lemma level_roundtrip_overflows :
  let k := {| Double.polyA := 0x1p1017; Double.polyB := 0; Double.polyC := 0;
              Double.polyMultiplier := 1 |} in
  map (Double.calculateXPForLevel k) [1; 2; 3; 4; 5; 6; 7; 8]%Z
  = map (fun L => Double.Int (L * L * 2 ^ 1017)) [1; 2; 3; 4; 5; 6; 7; 8]%Z
  /\ Double.calculateTotalXPToLevel k 7 = Double.PosInf
  /\ ~ exists fuel : nat,
         Double.calculateLevelFromXP k fuel
           (Double.toNumber (Double.calculateTotalXPToLevel k 7)) = Some 7%Z.
Proof.
  intros k. split; [vm_compute; reflexivity |].
  assert (Htotal : Double.calculateTotalXPToLevel k 7 = Double.PosInf)
    by (vm_compute; reflexivity).
  split; [exact Htotal |]. rewrite Htotal. cbn [Double.toNumber].
  intros [fuel Hfuel]. unfold Double.calculateLevelFromXP in Hfuel.
  destruct (Double.levelLoop k fuel PosInfinity 1 (Double.Int 0))
    as [[[|] level] xpUsed] eqn:Hrun; [| discriminate].
  assert (Hlevel : level = 8%Z) by (injection Hfuel; lia). subst level.
  change (Double.Int 0) with (Double.calculateTotalXPToLevel k (1 - 1)) in Hrun.
  apply Double_levelLoop_result in Hrun; [| lia | lia].
  destruct Hrun as (_ & _ & Hhi & _).
  vm_compute in Hhi. discriminate.
Qed.

(** C3, amended: for every N >= 0 and any coefficients for which the
    total to reach level N + 1 is a finite integer below 2^53 (so that
    no partial sum is rounded or overflows; the curve may or may not be
    monotonic), the scan of the total to reach N ends after N + 1
    evaluations of its condition and returns N, and the XP earned within
    the level, total minus the total of the completed levels, is 0. *)
Theorem level_roundtrip_exact (k : Double.Coefficients) (N : Z) :
  (0 <= N)%Z ->
  Double.exactUpTo k (N + 1) ->
  let total := Double.calculateTotalXPToLevel k N in
  (forall fuel : nat,
      (Z.to_nat N < fuel)%nat ->
      Double.calculateLevelFromXP k fuel (Double.toNumber total) = Some N)
  /\ Double.xpInLevel k total N = Double.Int 0.
Proof.
  intros HN Hexact total.
  destruct (Double_exact_mono k N (N + 1) HN ltac:(lia) Hexact)
    as (s & t & Hs & Ht & Hs0 & Hst & Hlt).
  unfold total. split.
  - intros fuel Hfuel.
    pose proof (Double_levelLoop_exact k N (Double.toNumber total) fuel 1 Hexact
                  ltac:(lia)) as Hrun.
    unfold total in Hrun. rewrite Hs, Ht in Hrun. cbn [Double.toNumber Double.leb] in Hrun.
    specialize (Hrun ltac:(apply JS_leb_le, Qle_refl)).
    specialize (Hrun ltac:(apply JS_leb_gt; rewrite <- Zlt_Qlt; lia)).
    specialize (Hrun ltac:(lia)).
    change (Double.calculateTotalXPToLevel k (1 - 1)) with (Double.Int 0) in Hrun.
    unfold Double.calculateLevelFromXP. rewrite Hs. cbn [Double.toNumber].
    rewrite Hrun. f_equal. lia.
  - unfold Double.xpInLevel. rewrite Hs. cbn [Double.sub].
    rewrite Double_add_exact by lia. f_equal. lia.
Qed.

Lemma level_roundtrip_exact_witness :
  Double.calculateLevelFromXP Double.defaultPreset 4
    (Double.toNumber (Double.calculateTotalXPToLevel Double.defaultPreset 3))
  = Some 3%Z.
Proof.
  refine (proj1 (level_roundtrip_exact Double.defaultPreset 3 _ _) 4%nat _).
  - lia.
  - vm_compute. reflexivity.
  - vm_compute. lia.
Defined.

(** C9, counterexample: the consumed XP need not grow.  With a = 0,
    b = -1e16, c = 2e16 and multiplier 1, level 1 costs 1e16 points and
    every later level 1 point; at totalXp = 1e16 + 10 the second pass of
    the loop adds 1 to 1e16, which rounds back to 1e16, and after 1000
    evaluations of the condition the loop is still running with 1e16
    points consumed.  And the bound floor(totalXp) + 1 is negative at
    totalXp = -5, where the loop stops at its first evaluation. *)
Lemma level_scan_stalls :
  let k := {| Double.polyA := 0; Double.polyB := -1e16; Double.polyC := 2e16;
              Double.polyMultiplier := 1 |} in
  let totalXP := Finite (inject_Z (10 ^ 16 + 10)) in
  map (Double.calculateXPForLevel k) [1; 2; 3]%Z
  = [Double.Int (10 ^ 16); Double.Int 1; Double.Int 1]
  /\ Double.levelLoop k 1 totalXP 1 (Double.Int 0) = (false, 2%Z, Double.Int (10 ^ 16))
  /\ Double.levelLoop k 2 totalXP 1 (Double.Int 0) = (false, 3%Z, Double.Int (10 ^ 16))
  /\ Double.levelLoop k 1000 totalXP 1 (Double.Int 0)
     = (false, 1001%Z, Double.Int (10 ^ 16))
  /\ Double.levelLoop Double.defaultPreset 1 (Finite (-5)) 1 (Double.Int 0)
     = (true, 1%Z, Double.Int 0)
  /\ (JS.floor (-5) + 1 < 0)%Z.
Proof. intros k totalXP. repeat split; vm_compute; reflexivity. Qed.

(** C9, amended: for every finite totalXp below 2^53 the scan ends
    within floor(totalXp) + 1 evaluations of its condition (one, when
    totalXp is negative) and returns a level L with
    0 <= L <= max(0, floor(totalXp)), the number of times the loop body
    ran; a totalXp below [calculateXPForLevel 1], every negative one
    included, gives 0. *)
Theorem level_scan_terminates_below_2p53 (k : Double.Coefficients) (totalXP : Q) :
  totalXP < inject_Z (2 ^ 53) ->
  exists L : Z,
    (forall fuel : nat,
        (Z.to_nat (JS.floor totalXP) < fuel)%nat ->
        Double.calculateLevelFromXP k fuel (Finite totalXP) = Some L)
    /\ (0 <= L <= Z.max 0 (JS.floor totalXP))%Z
    /\ (totalXP < 0 -> L = 0%Z)
    /\ (Double.leb (Double.calculateXPForLevel k 1) (Finite totalXP) = false ->
        L = 0%Z).
Proof.
  intros Hq.
  destruct (Double_levelLoop_terminates k totalXP (S (Z.to_nat (JS.floor totalXP)))
              1 0 Hq ltac:(lia) ltac:(lia))
    as (level' & s' & Hrun & Hle & Hdiff & Hor).
  { unfold JS.floor. lia. }
  exists (level' - 1)%Z. split; [| split; [| split]].
  - intros fuel Hfuel. unfold Double.calculateLevelFromXP.
    rewrite (Double_levelLoop_fuel_mono k _ fuel _ _ _ _ _ Hrun) by lia.
    reflexivity.
  - unfold JS.floor. lia.
  - intros Hneg. pose proof (JS_floor_ub totalXP 0 Hneg) as Hf.
    unfold JS.floor in Hf. lia.
  - intros Hsmall. cbn [Double.levelLoop] in Hrun.
    pose proof (Double_calculateXPForLevel_range k 1) as Hx.
    destruct (Double.calculateXPForLevel k 1) as [x | | |].
    + destruct (Z_lt_le_dec x (2 ^ 53)) as [Hlt | Hge].
      * change (Double.add (Double.Int 0) (Double.Int x))
          with (Double.ofInteger (Double.round53 x)) in Hrun.
        rewrite round53_small, Double_ofInteger_small in Hrun
          by (pose proof pow53_lt_pow1024; lia).
        rewrite Hsmall in Hrun. injection Hrun as <- _. lia.
      * assert (Hcmp : Double.leb (Double.add (Double.Int 0) (Double.Int x))
                         (Finite totalXP) = false).
        { destruct (Double_add_beyond 0 x ltac:(lia)) as [-> | (t & -> & Ht)];
            [reflexivity |].
          cbn [Double.leb]. apply JS_leb_gt.
          apply Qlt_le_trans with (inject_Z (2 ^ 53)); [assumption |].
          now rewrite <- Zle_Qle. }
        rewrite Hcmp in Hrun. injection Hrun as <- _. lia.
    + cbn [Double.add Double.leb] in Hrun. injection Hrun as <- _. lia.
    + cbn [Double.add Double.leb] in Hrun. injection Hrun as <- _. lia.
    + contradiction.
Qed.

Lemma level_scan_terminates_below_2p53_witness :
  exists L : Z,
    Double.calculateLevelFromXP Double.defaultPreset 101 (Finite 100) = Some L
    /\ (0 <= L <= 100)%Z.
Proof.
  destruct (level_scan_terminates_below_2p53 Double.defaultPreset 100)
    as (L & Hrun & Hbound & _).
  - vm_compute. reflexivity.
  - exists L. split; [apply Hrun; vm_compute; lia | exact Hbound].
Defined.

(** ** Seeded roller *)

(** C6: for every integer seed, negative ones included, the roll under
    {first: 1, rest: 0} is first and the roll under {participation: 1,
    rest: 0} is participation, since the derived fraction lies in [0, 1). *)
Theorem roll_degenerate_distributions {js : JSMath} (s : Z) :
  0 <= seedRandom (inject_Z s) < 1
  /\ rollPlacement {| first := 1; second := 0; third := 0; participation := 0 |}
                   (inject_Z s) = First
  /\ rollPlacement {| first := 0; second := 0; third := 0; participation := 1 |}
                   (inject_Z s) = Participation.
Proof.
  split; [apply seedRandom_range |]. split.
  - apply rollPlacement_first. cbn. lra.
  - apply rollPlacement_participation; cbn; lra.
Qed.

Lemma roll_degenerate_distributions_witness :
  rollPlacement (js := triangleMath)
    {| first := 1; second := 0; third := 0; participation := 0 |} (inject_Z (-7)) = First
  /\ rollPlacement (js := triangleMath)
       {| first := 0; second := 0; third := 0; participation := 1 |} (inject_Z (-7))
     = Participation.
Proof. exact (proj2 (roll_degenerate_distributions (js := triangleMath) (-7))). Defined.

(** ** Statistical split of the daily games *)

(** C10: for a non-negative game count and non-negative probabilities
    that sum to at most 1, the four buckets of [calculateGameTypePoints]
    are non-negative and add up to the count; the participation bucket is
    positive as soon as the three floors drop a fractional remainder, which
    happens for the exceptional profile (participation probability 0) at
    count 1, where the whole game is scored as participation. *)
Theorem daily_split_buckets (inp : Inputs) (gameCount : Z) (d : PlacementDistribution) :
  (0 <= gameCount)%Z ->
  0 <= first d -> 0 <= second d -> 0 <= third d -> 0 <= participation d ->
  first d + second d + third d + participation d <= 1 ->
  ((0 <= firstPlaceGames gameCount d)%Z
   /\ (0 <= secondPlaceGames gameCount d)%Z
   /\ (0 <= thirdPlaceGames gameCount d)%Z
   /\ (0 <= participationGames gameCount d)%Z)
  /\ (firstPlaceGames gameCount d + secondPlaceGames gameCount d
      + thirdPlaceGames gameCount d + participationGames gameCount d = gameCount)%Z
  /\ (inject_Z (firstPlaceGames gameCount d + secondPlaceGames gameCount d
                + thirdPlaceGames gameCount d)
      < inject_Z gameCount * (first d + second d + third d) ->
      (0 < participationGames gameCount d)%Z)
  /\ (participation (distribution Exceptional) == 0
      /\ participationGames 1 (distribution Exceptional) = 1%Z
      /\ calculateGameTypePoints inp 1 (distribution Exceptional) (GAME_DURATIONS Daily)
         == participationPointsPerDay inp).
Proof.
  intros Hc H1 H2 H3 H4 Hsum.
  assert (Hq : 0 <= inject_Z gameCount)
    by (change 0 with (inject_Z 0); now rewrite <- Zle_Qle).
  assert (Hp1 : 0 <= inject_Z gameCount * first d) by (apply Qmult_le_0_compat; assumption).
  assert (Hp2 : 0 <= inject_Z gameCount * second d) by (apply Qmult_le_0_compat; assumption).
  assert (Hp3 : 0 <= inject_Z gameCount * third d) by (apply Qmult_le_0_compat; assumption).
  pose proof (JS_floor_lb _ 0 Hp1) as Hf1.
  pose proof (JS_floor_lb _ 0 Hp2) as Hf2.
  pose proof (JS_floor_lb _ 0 Hp3) as Hf3.
  destruct (JS_floor_spec (inject_Z gameCount * first d)) as [Hl1 _].
  destruct (JS_floor_spec (inject_Z gameCount * second d)) as [Hl2 _].
  destruct (JS_floor_spec (inject_Z gameCount * third d)) as [Hl3 _].
  assert (Hmul : inject_Z gameCount * (first d + second d + third d) <= inject_Z gameCount).
  { pose proof (Qmult_le_compat_r (first d + second d + third d) 1 (inject_Z gameCount)
                  ltac:(lra) Hq).
    lra. }
  fold (firstPlaceGames gameCount d) in Hf1, Hl1.
  fold (secondPlaceGames gameCount d) in Hf2, Hl2.
  fold (thirdPlaceGames gameCount d) in Hf3, Hl3.
  assert (Hfloors : inject_Z (firstPlaceGames gameCount d + secondPlaceGames gameCount d
                              + thirdPlaceGames gameCount d)
                    <= inject_Z gameCount * (first d + second d + third d)).
  { rewrite !inject_Z_plus. lra. }
  split; [| split; [| split]].
  - repeat split; try assumption.
    unfold participationGames.
    assert (Hle : inject_Z (firstPlaceGames gameCount d + secondPlaceGames gameCount d
                            + thirdPlaceGames gameCount d) <= inject_Z gameCount)
      by lra.
    rewrite <- Zle_Qle in Hle. lia.
  - unfold participationGames. lia.
  - intros Hdrop. unfold participationGames.
    assert (Hlt : inject_Z (firstPlaceGames gameCount d + secondPlaceGames gameCount d
                            + thirdPlaceGames gameCount d) < inject_Z gameCount)
      by lra.
    rewrite <- Zlt_Qlt in Hlt. lia.
  - split; [reflexivity |]. split; [reflexivity |].
    unfold calculateGameTypePoints.
    change (firstPlaceGames 1 (distribution Exceptional)) with 0%Z.
    change (secondPlaceGames 1 (distribution Exceptional)) with 0%Z.
    change (thirdPlaceGames 1 (distribution Exceptional)) with 0%Z.
    change (participationGames 1 (distribution Exceptional)) with 1%Z.
    change (inject_Z 0) with 0. change (inject_Z 1) with 1. lra.
Qed.

Lemma daily_split_buckets_witness :
  (firstPlaceGames 7 (distribution Average) + secondPlaceGames 7 (distribution Average)
   + thirdPlaceGames 7 (distribution Average)
   + participationGames 7 (distribution Average) = 7)%Z
  /\ (0 <= participationGames 7 (distribution Average))%Z.
Proof.
  destruct (daily_split_buckets defaultInputs 7 (distribution Average))
    as ((_ & _ & _ & Hp) & Hs & _); try (vm_compute; discriminate).
  exact (conj Hs Hp).
Defined.

(** ** Annotation generator against the simulator *)

Section AgreementFacts.

Context {js : JSMath}.
Variable inp : Inputs.
Variable d : PlacementDistribution.

Abbreviation Log := (gmap AnnotationKey Placement).

Lemma weeklyAnnotations_lookup (m : Log) (c' : Cadence) (day' g : Z) :
  weeklyAnnotations inp d m !! (c', day', g)
  = if decide (c' = Weekly /\ ((1 <= day' / 7 <= 52 /\ day' mod 7 = 0)
                               /\ 0 <= g < weeklyGames inp)%Z)
    then Some (rollPlacement d (inject_Z (weeklySeed inp (day' / 7) g)))
    else m !! (c', day', g).
Proof.
  unfold weeklyAnnotations.
  destruct (0 <? weeklyGames inp)%Z eqn:Hw.
  - change (steppedDays 7 365 7)
      with (map (fun i => (7 + 7 * Z.of_nat i)%Z) (seq 0 52)).
    exact (proj2 (annotate_occurrences d Weekly 7 (weeklySeed inp) (weeklyGames inp)
                    52 m ltac:(lia)) c' day' g).
  - apply Z.ltb_ge in Hw. case_decide as H1; [lia | reflexivity].
Qed.

Lemma monthlyAnnotations_lookup (m : Log) (c' : Cadence) (day' g : Z) :
  monthlyAnnotations inp d m !! (c', day', g)
  = if decide (c' = Monthly /\ ((1 <= day' / 30 <= 12 /\ day' mod 30 = 0)
                                /\ 0 <= g < monthlyGames inp)%Z)
    then Some (rollPlacement d (inject_Z (monthlySeed inp (day' / 30) g)))
    else m !! (c', day', g).
Proof.
  unfold monthlyAnnotations.
  destruct (0 <? monthlyGames inp)%Z eqn:Hm.
  - change (steppedDays 30 365 30)
      with (map (fun i => (30 + 30 * Z.of_nat i)%Z) (seq 0 12)).
    exact (proj2 (annotate_occurrences d Monthly 30 (monthlySeed inp) (monthlyGames inp)
                    12 m ltac:(lia)) c' day' g).
  - apply Z.ltb_ge in Hm. case_decide as H1; [lia | reflexivity].
Qed.

(** The annotation of a game is there exactly for the nominal schedule. *)
Lemma generateGameAnnotations_weekly (day g : Z) :
  generateGameAnnotations inp d !! (Weekly, day, g)
  = if decide ((1 <= day / 7 <= 52 /\ day mod 7 = 0) /\ 0 <= g < weeklyGames inp)%Z
    then Some (rollPlacement d (inject_Z (weeklySeed inp (day / 7) g)))
    else None.
Proof.
  unfold generateGameAnnotations.
  rewrite monthlyAnnotations_lookup, weeklyAnnotations_lookup, lookup_empty.
  repeat case_decide; try reflexivity; exfalso;
    repeat match goal with
           | H : _ /\ _ |- _ => destruct H
           | H : Weekly = Monthly |- _ => discriminate H
           end;
    match goal with
    | H : ~ _ |- _ => solve [apply H; repeat split; first [reflexivity | lia]]
    end.
Qed.

Lemma generateGameAnnotations_monthly (day g : Z) :
  generateGameAnnotations inp d !! (Monthly, day, g)
  = if decide ((1 <= day / 30 <= 12 /\ day mod 30 = 0) /\ 0 <= g < monthlyGames inp)%Z
    then Some (rollPlacement d (inject_Z (monthlySeed inp (day / 30) g)))
    else None.
Proof.
  unfold generateGameAnnotations.
  rewrite monthlyAnnotations_lookup, weeklyAnnotations_lookup, lookup_empty.
  repeat case_decide; try reflexivity; exfalso;
    repeat match goal with
           | H : _ /\ _ |- _ => destruct H
           | H : Monthly = Weekly |- _ => discriminate H
           end;
    match goal with
    | H : ~ _ |- _ => solve [apply H; repeat split; first [reflexivity | lia]]
    end.
Qed.

End AgreementFacts.

(** C1: for every week occurrence w in 1..52 and every game index g that
    both components roll (below [weeklyGames] and below the simulator's
    rounded effective count of that week), the placement the simulator
    rolls on day 7w for game g is the one the annotation generator stores
    for that day and game: the roll of the seed w*1000 + g + offset under
    the same distribution; likewise for every month occurrence m in 1..12
    with the seed m*10000 + g + offset on day 30m. *)
Theorem annotations_agree_with_simulator {js : JSMath}
    (inp : Inputs) (d : PlacementDistribution) :
  (forall w g : Z,
      (1 <= w <= 52)%Z -> (0 <= g < weeklyGames inp)%Z ->
      (g < adjustedWeeklyGames inp (7 * w))%Z ->
      rolled (chartData inp d) !! (Weekly, (7 * w)%Z, g)
      = Some (rollPlacement d (inject_Z (w * 1000 + g + weeklySeedOffset inp)))
      /\ generateGameAnnotations inp d !! (Weekly, (7 * w)%Z, g)
         = rolled (chartData inp d) !! (Weekly, (7 * w)%Z, g))
  /\ (forall m g : Z,
        (1 <= m <= 12)%Z -> (0 <= g < monthlyGames inp)%Z ->
        (g < adjustedMonthlyGames inp (30 * m))%Z ->
        rolled (chartData inp d) !! (Monthly, (30 * m)%Z, g)
        = Some (rollPlacement d (inject_Z (m * 10000 + g + monthlySeedOffset inp)))
        /\ generateGameAnnotations inp d !! (Monthly, (30 * m)%Z, g)
           = rolled (chartData inp d) !! (Monthly, (30 * m)%Z, g)).
Proof.
  split.
  - intros w g Hw Hg Hadj.
    assert (Hdiv : (7 * w / 7 = w)%Z) by (Z.to_euclidean_division_equations; lia).
    assert (Hmod : ((7 * w) mod 7 = 0)%Z) by (Z.to_euclidean_division_equations; lia).
    rewrite generateGameAnnotations_weekly, chartData_simulateDays.
    rewrite simulateDays_rolled_weekly by lia. rewrite Hdiv.
    case_decide as H1; [| exfalso; apply H1; repeat split; lia].
    case_decide as H2; [| exfalso; apply H2; repeat split; lia].
    split; reflexivity.
  - intros m g Hm Hg Hadj.
    assert (Hdiv : (30 * m / 30 = m)%Z) by (Z.to_euclidean_division_equations; lia).
    assert (Hmod : ((30 * m) mod 30 = 0)%Z) by (Z.to_euclidean_division_equations; lia).
    rewrite generateGameAnnotations_monthly, chartData_simulateDays.
    rewrite simulateDays_rolled_monthly by lia. rewrite Hdiv.
    case_decide as H1; [| exfalso; apply H1; repeat split; lia].
    case_decide as H2; [| exfalso; apply H2; repeat split; lia].
    split; reflexivity.
Qed.

Lemma annotations_agree_with_simulator_witness :
  generateGameAnnotations (js := triangleMath) defaultInputs (distribution Average)
    !! (Weekly, (7 * 2)%Z, 2%Z)
  = rolled (chartData (js := triangleMath) defaultInputs (distribution Average))
      !! (Weekly, (7 * 2)%Z, 2%Z)
  /\ generateGameAnnotations (js := triangleMath) defaultInputs (distribution Average)
       !! (Monthly, (30 * 1)%Z, 0%Z)
     = rolled (chartData (js := triangleMath) defaultInputs (distribution Average))
         !! (Monthly, (30 * 1)%Z, 0%Z).
Proof.
  destruct (annotations_agree_with_simulator (js := triangleMath) defaultInputs
              (distribution Average)) as [Hw Hm].
  split.
  - refine (proj2 (Hw 2%Z 2%Z _ _ _)); vm_compute; try split; congruence.
  - refine (proj2 (Hm 1%Z 0%Z _ _ _)); vm_compute; try split; congruence.
Defined.

(** ** Year simulator *)

Section ScenarioFacts.

Context {js : JSMath}.
Variable inp : Inputs.

(** With one weekly game scheduled the rounded effective count is 1 on
    every day: the seasonal multiplier and the daily wobble keep the
    product within [0.56, 1.2]. *)
Lemma adjustedWeeklyGames_one (day : Z) :
  weeklyGames inp = 1%Z -> adjustedWeeklyGames inp day = 1%Z.
Proof.
  intros Hw. unfold adjustedWeeklyGames. rewrite Hw.
  destruct (getDailyVariation_range day) as [Hlo Hhi].
  change (inject_Z 1) with 1.
  apply JS_round_unique; change (inject_Z 1) with 1;
    destruct (getSeasonalMultiplier_cases (monthOfDay day)) as [-> | [-> | ->]]; lra.
Qed.

Lemma weeklyContribution_one (d : PlacementDistribution) (day wc : Z) :
  weeklyGames inp = 1%Z -> 1 <= first d ->
  weeklyContribution inp d day wc
  == if (day mod 7 =? 0)%Z then firstPlacePointsPerDay inp * 7 else 0.
Proof.
  intros Hw Hd. unfold weeklyContribution, weeklyBlock. cbv zeta.
  rewrite Hw. change (0 <? 1)%Z with true. rewrite andb_true_r.
  destruct (day mod 7 =? 0)%Z; cbn [snd fst]; [| reflexivity].
  unfold rollGames. rewrite adjustedWeeklyGames_one by assumption.
  rewrite indicesBelow_one. cbn [fold_left rollGame fst].
  rewrite rollPlacement_first by assumption.
  cbn [getPointsForPlacement GAME_DURATIONS]. change (inject_Z 7) with 7. lra.
Qed.

(** Nothing scheduled: every day leaves the state as it was, apart from
    one more zero in the data array and one more level of 0 XP. *)
Lemma simulateDays_idle (d : PlacementDistribution) (n : nat) :
  dailyGames inp = 0%Z -> weeklyGames inp = 0%Z -> monthlyGames inp = 0%Z ->
  (n <= 365)%nat ->
  simulateDays inp d n
  = {| cumulativePoints := 0;
       dailyPointsData := replicate n 0;
       dailyLevelsData := replicate n (calculateLevelFromXP (coefficients inp) 0);
       weekCount := 0;
       monthCount := 0;
       rolled := ∅ |}.
Proof.
  intros Hd Hw Hm. induction n as [| n IH]; intros Hn; [reflexivity |].
  rewrite simulateDays_succ by lia. rewrite IH by lia.
  unfold simulateDay, dailyBlock, weeklyBlock, monthlyBlock. cbv zeta.
  rewrite Hd, Hw, Hm. change (0 <? 0)%Z with false. rewrite !andb_false_r.
  cbn [cumulativePoints dailyPointsData dailyLevelsData weekCount monthCount rolled].
  rewrite !replicate_S_end. reflexivity.
Qed.

End ScenarioFacts.



(** C5: with the three schedule counts at 0 the cumulative-points
    sequence is 365 zeros and the level sequence is, on each of the 365
    days, the level of 0 XP, which is level 0, for any coefficients,
    points and distribution. *)
Theorem idle_year_is_flat {js : JSMath} (inp : Inputs) (d : PlacementDistribution) :
  dailyGames inp = 0%Z -> weeklyGames inp = 0%Z -> monthlyGames inp = 0%Z ->
  dailyPointsData (chartData inp d) = replicate 365 0
  /\ dailyLevelsData (chartData inp d)
     = replicate 365 (calculateLevelFromXP (coefficients inp) 0)
  /\ calculateLevelFromXP (coefficients inp) 0 = 0%Z.
Proof.
  intros Hd Hw Hm. rewrite chartData_simulateDays.
  rewrite simulateDays_idle by (assumption || lia).
  cbn [dailyPointsData dailyLevelsData].
  repeat split. apply calculateLevelFromXP_zero.
Qed.

Lemma idle_year_is_flat_witness :
  dailyPointsData
    (chartData (js := triangleMath)
       {| selectedProfile := Average;
          dailyGames := 0; weeklyGames := 0; monthlyGames := 0;
          firstPlacePointsPerDay := 5; secondPlacePointsPerDay := 3;
          thirdPlacePointsPerDay := 2; participationPointsPerDay := 1;
          coefficients := coefficients defaultInputs |}
       (distribution Average))
  = replicate 365 0.
Proof.
  refine (proj1 (idle_year_is_flat (js := triangleMath) _ _ _ _ _)); reflexivity.
Defined.

(** ** Yearly statistics *)

Lemma totalPointsPerYear_idle {js : JSMath} (inp : Inputs) :
  dailyGames inp = 0%Z -> weeklyGames inp = 0%Z -> monthlyGames inp = 0%Z ->
  totalPointsPerYear inp = 0.
Proof.
  intros Hd Hw Hm. unfold totalPointsPerYear, simulateYear.
  rewrite chartData_simulateDays, simulateDays_idle by (assumption || lia).
  cbn [dailyPointsData]. rewrite lookup_replicate_2 by lia. reflexivity.
Qed.

(** C8: when [totalGamesPerYear] is 0 the average per game is the rounded
    result of a division by zero, NaN or an infinity and never a finite
    number (NaN when the three counts are 0, the total points being 0
    then); when [totalGamesPerYear] is positive it is
    round(totalPointsPerYear / totalGamesPerYear). *)
Theorem avgPointsPerGame_division {js : JSMath} (inp : Inputs) :
  (totalGamesPerYear inp = 0%Z -> isFinite (avgPointsPerGame inp) = false)
  /\ (dailyGames inp = 0%Z -> weeklyGames inp = 0%Z -> monthlyGames inp = 0%Z ->
      totalGamesPerYear inp = 0%Z /\ avgPointsPerGame inp = NaN)
  /\ ((0 < totalGamesPerYear inp)%Z ->
      avgPointsPerGame inp
      = Finite (inject_Z (JS.round (totalPointsPerYear inp
                                    / inject_Z (totalGamesPerYear inp))))).
Proof.
  split; [| split].
  - intros Hz. unfold avgPointsPerGame, jsDivide. rewrite Hz.
    change (Qeq_bool (inject_Z 0) 0) with true. cbv iota.
    destruct (Qeq_bool (totalPointsPerYear inp) 0); [reflexivity |].
    destruct (JS.ltb 0 (totalPointsPerYear inp)); reflexivity.
  - intros Hd Hw Hm.
    assert (Hz : totalGamesPerYear inp = 0%Z)
      by (unfold totalGamesPerYear; rewrite Hd, Hw, Hm; reflexivity).
    split; [assumption |].
    unfold avgPointsPerGame. rewrite Hz, totalPointsPerYear_idle by assumption.
    reflexivity.
  - intros Hpos. unfold avgPointsPerGame, jsDivide.
    destruct (Qeq_bool (inject_Z (totalGamesPerYear inp)) 0) eqn:Hq; [| reflexivity].
    apply Qeq_bool_iff in Hq. unfold Qeq in Hq. cbn [Qnum Qden inject_Z] in Hq. lia.
Qed.

Lemma avgPointsPerGame_division_witness :
  avgPointsPerGame (js := triangleMath) defaultInputs
  = Finite (inject_Z (JS.round (totalPointsPerYear (js := triangleMath) defaultInputs
                                / inject_Z (totalGamesPerYear defaultInputs)))).
Proof.
  refine (proj2 (proj2 (avgPointsPerGame_division (js := triangleMath) defaultInputs)) _).
  reflexivity.
Defined.

(** * Further properties *)

(** ** Level curve *)

Section LevelInverseFacts.

Variable k : Coefficients.

Lemma calculateTotalXPToLevel_strict (a b : Z) :
  (0 <= a)%Z -> (a < b)%Z ->
  inject_Z (calculateTotalXPToLevel k a) < inject_Z (calculateTotalXPToLevel k b).
Proof.
  intros Ha Hab. rewrite <- Zlt_Qlt.
  pose proof (calculateTotalXPToLevel_mono k a b Ha ltac:(lia)). lia.
Qed.



End LevelInverseFacts.

(** X1: for a non-negative XP total and a level L the total to reach
    which, and the next, stay below 2^53, [calculateLevelFromXP] returns
    L exactly when calculateTotalXPToLevel(L) <= total <
    calculateTotalXPToLevel(L + 1); the scan then ends within L + 1
    evaluations of its condition.  This holds for every coefficient set,
    monotonic curve or not. *)
Theorem level_brackets_total_exact (k : Double.Coefficients) (totalXP : Q) (L : Z) :
  0 <= totalXP -> (0 <= L)%Z -> Double.exactUpTo k (L + 1) ->
  let bracket :=
    Double.leb (Double.calculateTotalXPToLevel k L) (Finite totalXP) = true
    /\ Double.leb (Double.calculateTotalXPToLevel k (L + 1)) (Finite totalXP) = false in
  (bracket ->
   forall fuel : nat,
     (Z.to_nat L < fuel)%nat ->
     Double.calculateLevelFromXP k fuel (Finite totalXP) = Some L)
  /\ (forall fuel : nat,
        Double.calculateLevelFromXP k fuel (Finite totalXP) = Some L -> bracket).
Proof.
  intros Hq HL Hexact bracket. subst bracket. cbv beta. split.
  - intros [Hlo Hhi] fuel Hfuel.
    pose proof (Double_levelLoop_exact k L (Finite totalXP) fuel 1 Hexact
                  ltac:(lia) Hlo Hhi ltac:(lia)) as Hrun.
    change (Double.calculateTotalXPToLevel k (1 - 1)) with (Double.Int 0) in Hrun.
    unfold Double.calculateLevelFromXP. rewrite Hrun. f_equal. lia.
  - intros fuel Hfuel. unfold Double.calculateLevelFromXP in Hfuel.
    destruct (Double.levelLoop k fuel (Finite totalXP) 1 (Double.Int 0))
      as [[[|] level] xpUsed] eqn:Hrun; [| discriminate].
    assert (Hlevel : level = (L + 1)%Z) by (injection Hfuel; lia). subst level.
    change (Double.Int 0) with (Double.calculateTotalXPToLevel k (1 - 1)) in Hrun.
    pose proof (Double_exact_level_bound k (L + 1) Hexact) as Hb.
    apply Double_levelLoop_result in Hrun; [| lia | assumption].
    destruct Hrun as (_ & _ & Hhi & Hlo). split; [| assumption].
    destruct (Z.eq_dec L 0%Z) as [-> | Hne].
    + cbn [Double.leb]. apply JS_leb_le. assumption.
    + replace L with (L + 1 - 1)%Z at 1 by lia. apply Hlo. lia.
Qed.

Lemma level_brackets_total_exact_witness :
  Double.calculateLevelFromXP Double.defaultPreset 4 (Finite 25) = Some 3%Z.
Proof.
  refine (proj1 (level_brackets_total_exact Double.defaultPreset 25 3 _ _ _) _ 4%nat _).
  - vm_compute. discriminate.
  - lia.
  - vm_compute. reflexivity.
  - vm_compute. split; reflexivity.
  - vm_compute. lia.
Defined.



(** X3: for an integral XP total T with 0 <= T and T + 1 < 2^53 the
    progress record is consistent: the scan ends within T + 1 evaluations
    of its condition at a level L >= 0, the total of the completed
    levels is an integer s <= T, xpInLevel is T - s without rounding,
    and xpInLevel is below xpNeededForNext, the XP of level L + 1, when
    that is a number other than NaN. *)
Theorem progress_within_level_exact (k : Double.Coefficients) (T : Z) :
  (0 <= T)%Z -> (T + 1 < 2 ^ 53)%Z ->
  exists L s : Z,
    (forall fuel : nat,
        (Z.to_nat T < fuel)%nat ->
        Double.calculateLevelFromXP k fuel (Finite (inject_Z T)) = Some L)
    /\ (0 <= L)%Z
    /\ Double.calculateTotalXPToLevel k L = Double.Int s
    /\ Double.xpInLevel k (Double.Int T) L = Double.Int (T - s)
    /\ (0 <= T - s)%Z
    /\ match Double.calculateXPForLevel k (L + 1) with
       | Double.Int x => (T - s < x)%Z
       | Double.NaNInt | Double.PosInf => True
       | Double.NegInf => False
       end.
Proof.
  intros HT Hsmall.
  assert (Hq : inject_Z T < inject_Z (2 ^ 53)) by (rewrite <- Zlt_Qlt; lia).
  destruct (Double_levelLoop_terminates k (inject_Z T) (S (Z.to_nat T)) 1 0 Hq
              ltac:(lia) ltac:(lia))
    as (level' & s' & Hrun & Hle & Hdiff & Hor).
  { rewrite Qfloor_Z. lia. }
  rewrite Qfloor_Z in Hor.
  assert (Hs' : (0 <= s' <= T)%Z) by lia.
  pose proof Hrun as Hres.
  change (Double.Int 0) with (Double.calculateTotalXPToLevel k (1 - 1)) in Hres.
  apply Double_levelLoop_result in Hres; [| lia | lia].
  destruct Hres as (_ & Htotal & Hhi & _).
  exists (level' - 1)%Z, s'. split; [| split; [| split; [| split; [| split]]]].
  - intros fuel Hfuel. unfold Double.calculateLevelFromXP.
    rewrite (Double_levelLoop_fuel_mono k _ fuel _ _ _ _ _ Hrun) by lia.
    reflexivity.
  - lia.
  - now symmetry.
  - unfold Double.xpInLevel. rewrite <- Htotal. cbn [Double.sub].
    rewrite Double_add_exact by lia. f_equal; lia.
  - lia.
  - replace (level' - 1 + 1)%Z with level' by lia.
    replace level' with (level' - 1 + 1)%Z in Hhi at 1 by lia.
    rewrite Double_calculateTotalXPToLevel_succ, <- Htotal in Hhi by lia.
    replace (level' - 1 + 1)%Z with level' in Hhi by lia.
    pose proof (Double_calculateXPForLevel_range k level') as Hx.
    destruct (Double.calculateXPForLevel k level') as [x | | |];
      try exact I; try contradiction.
    destruct (Z_lt_le_dec (s' + x) (2 ^ 53)) as [Hlt | Hge]; [| lia].
    rewrite Double_add_exact in Hhi by lia. cbn [Double.leb] in Hhi.
    apply JS_leb_gt in Hhi. rewrite <- Zlt_Qlt in Hhi. lia.
Qed.

Lemma progress_within_level_exact_witness :
  exists L s : Z,
    Double.calculateLevelFromXP Double.defaultPreset 26 (Finite (inject_Z 25)) = Some L
    /\ Double.xpInLevel Double.defaultPreset (Double.Int 25) L = Double.Int (25 - s)
    /\ (0 <= 25 - s)%Z.
Proof.
  destruct (progress_within_level_exact Double.defaultPreset 25)
    as (L & s & Hrun & _ & _ & Hin & Hnn & _).
  - lia.
  - vm_compute. reflexivity.
  - exists L, s. split; [apply Hrun; lia | exact (conj Hin Hnn)].
Defined.

(** X4: [calculateTotalXPToLevel] is 0 at level 0, and as long as the
    totals stay below 2^53 it grows by at least one point per level, so
    it is strictly increasing there, whatever the coefficients. *)
Theorem totalXP_increasing_while_exact (k : Double.Coefficients) (a b : Z) :
  (0 <= a < b)%Z -> Double.exactUpTo k b ->
  Double.calculateTotalXPToLevel k 0 = Double.Int 0
  /\ exists s t : Z,
       Double.calculateTotalXPToLevel k a = Double.Int s
       /\ Double.calculateTotalXPToLevel k b = Double.Int t
       /\ (0 <= s)%Z /\ (s + (b - a) <= t)%Z /\ (s < t)%Z.
Proof.
  intros Hab Hexact. split; [reflexivity |].
  destruct (Double_exact_mono k a b ltac:(lia) ltac:(lia) Hexact)
    as (s & t & Hs & Ht & Hs0 & Hst & _).
  exists s, t. repeat split; try assumption; lia.
Qed.

Lemma totalXP_increasing_while_exact_witness :
  exists s t : Z,
    Double.calculateTotalXPToLevel Double.steepPreset 15 = Double.Int s
    /\ Double.calculateTotalXPToLevel Double.steepPreset 51 = Double.Int t
    /\ (s < t)%Z.
Proof.
  destruct (totalXP_increasing_while_exact Double.steepPreset 15 51)
    as (_ & s & t & Hs & Ht & _ & _ & Hlt).
  - lia.
  - vm_compute. reflexivity.
  - exists s, t. auto.
Defined.



(** ** Seeded roller *)

(** X6: under a distribution with non-negative entries that sum to 1, a
    placement of probability 0 is never rolled: whatever the seed, the
    rolled placement has a positive probability. *)
Theorem roll_has_positive_probability {js : JSMath}
    (d : PlacementDistribution) (seed : Q) :
  0 <= first d -> 0 <= second d -> 0 <= third d ->
  first d + second d + third d + participation d == 1 ->
  0 < probabilityOf d (rollPlacement d seed).
Proof.
  intros H1 H2 H3 Hsum. unfold rollPlacement. cbv zeta.
  destruct (seedRandom_range seed) as [Hlo Hhi].
  destruct (JS.ltb (seedRandom seed) (first d)) eqn:Hc1.
  { apply JS_ltb_lt in Hc1. cbn. lra. }
  apply JS_ltb_ge in Hc1.
  destruct (JS.ltb (seedRandom seed) (first d + second d)) eqn:Hc2.
  { apply JS_ltb_lt in Hc2. cbn. lra. }
  apply JS_ltb_ge in Hc2.
  destruct (JS.ltb (seedRandom seed) (first d + second d + third d)) eqn:Hc3.
  { apply JS_ltb_lt in Hc3. cbn. lra. }
  apply JS_ltb_ge in Hc3. cbn. lra.
Qed.

Lemma roll_has_positive_probability_witness :
  0 < probabilityOf (distribution Exceptional)
         (rollPlacement (js := triangleMath) (distribution Exceptional) (2003 # 1)).
Proof.
  apply (roll_has_positive_probability (js := triangleMath));
    vm_compute; congruence.
Defined.

(** ** Seasons and effective counts *)

Lemma days_elem (day : Z) : (1 <= day <= 365)%Z -> day ∈ days.
Proof.
  intros Hday. unfold days. apply list_elem_of_fmap.
  exists (Z.to_nat (day - 1)). split; [lia |].
  apply list_elem_of_In, in_seq. lia.
Qed.

Lemma seasons_checked :
  forallb (fun day =>
             Qeq_bool (getSeasonalMultiplier (monthOfDay day)) (seasonOfDay day)
             && (0 <=? monthOfDay day)%Z && (monthOfDay day <=? 11)%Z)
          days = true.
Proof. vm_compute. reflexivity. Qed.

(** X7: on every day of the year the month index
    [Math.floor((day - 1) / 30.44)] lies in 0..11, and the seasonal
    multiplier is 1.2 on the days 1..61 and 306..365, 0.8 on the days
    154..244 and 1 on the other days. *)
Theorem seasonal_calendar (day : Z) :
  (1 <= day <= 365)%Z ->
  (0 <= monthOfDay day <= 11)%Z
  /\ getSeasonalMultiplier (monthOfDay day) == seasonOfDay day.
Proof.
  intros Hday. pose proof seasons_checked as Hall.
  rewrite forallb_forall in Hall.
  specialize (Hall day ltac:(apply list_elem_of_In, days_elem, Hday)).
  apply andb_true_iff in Hall as [Hall Hhi].
  apply andb_true_iff in Hall as [Heq Hlo].
  apply Qeq_bool_iff in Heq. apply Z.leb_le in Hlo, Hhi.
  split; [lia | assumption].
Qed.

Lemma seasonal_calendar_witness :
  getSeasonalMultiplier (monthOfDay 200) == 8 # 10.
Proof. exact (proj2 (seasonal_calendar 200 ltac:(lia))). Defined.

Lemma JS_round_mono (x y : Q) : x <= y -> (JS.round x <= JS.round y)%Z.
Proof. intros H. unfold JS.round. apply Qfloor_resp_le. lra. Qed.

Lemma scale_between (a lo hi v : Q) :
  0 <= a -> lo <= v <= hi -> a * lo <= a * v <= a * hi.
Proof.
  intros Ha [Hlo Hhi]. split.
  - rewrite (Qmult_comm a lo), (Qmult_comm a v). now apply Qmult_le_compat_r.
  - rewrite (Qmult_comm a v), (Qmult_comm a hi). now apply Qmult_le_compat_r.
Qed.

Section EffectiveCountFacts.

Context {js : JSMath}.
Variable inp : Inputs.

(** The product of the seasonal multiplier and the daily wobble. *)
Lemma season_variation_range (count : Q) (day : Z) :
  0 <= count ->
  count * (56 # 100)
  <= count * getSeasonalMultiplier (monthOfDay day) * getDailyVariation day
  <= count * (12 # 10).
Proof.
  intros Hc. destruct (getDailyVariation_range day) as [Hlo Hhi].
  destruct (getSeasonalMultiplier_cases (monthOfDay day)) as [-> | [-> | ->]].
  - destruct (scale_between (count * (8 # 10)) (70 # 100) 1 (getDailyVariation day)
                ltac:(lra) ltac:(split; assumption)). split; lra.
  - destruct (scale_between (count * (12 # 10)) (70 # 100) 1 (getDailyVariation day)
                ltac:(lra) ltac:(split; assumption)). split; lra.
  - destruct (scale_between (count * 1) (70 # 100) 1 (getDailyVariation day)
                ltac:(lra) ltac:(split; assumption)). split; lra.
Qed.

Lemma inject_Z_nonneg (n : Z) : (0 <= n)%Z -> 0 <= inject_Z n.
Proof. intros H. change 0 with (inject_Z 0). now rewrite <- Zle_Qle. Qed.

Lemma JS_round_nonneg (x : Q) : 0 <= x -> (0 <= JS.round x)%Z.
Proof.
  intros H. unfold JS.round. apply (JS_floor_lb _ 0).
  change (inject_Z 0) with 0. lra.
Qed.

Lemma adjustedDailyGames_range (day : Z) :
  (0 <= dailyGames inp)%Z ->
  (JS.round (inject_Z (dailyGames inp) * (2 # 5)) <= adjustedDailyGames inp day
   <= JS.round (inject_Z (dailyGames inp) * (6 # 7)))%Z.
Proof.
  intros Hd. apply inject_Z_nonneg in Hd. unfold adjustedDailyGames.
  destruct (season_variation_range (inject_Z (dailyGames inp) * (5 # 7)) day
              ltac:(lra)) as [Hlo Hhi].
  split; apply JS_round_mono; lra.
Qed.

Lemma adjustedWeeklyGames_range (day : Z) :
  (0 <= weeklyGames inp)%Z ->
  (JS.round (inject_Z (weeklyGames inp) * (56 # 100)) <= adjustedWeeklyGames inp day
   <= JS.round (inject_Z (weeklyGames inp) * (12 # 10)))%Z.
Proof.
  intros Hw. apply inject_Z_nonneg in Hw. unfold adjustedWeeklyGames.
  destruct (season_variation_range (inject_Z (weeklyGames inp)) day Hw) as [Hlo Hhi].
  split; apply JS_round_mono; lra.
Qed.

Lemma adjustedMonthlyGames_range (day : Z) :
  (0 <= monthlyGames inp)%Z ->
  (JS.round (inject_Z (monthlyGames inp) * (8 # 10)) <= adjustedMonthlyGames inp day
   <= JS.round (inject_Z (monthlyGames inp) * (12 # 10)))%Z.
Proof.
  intros Hm. apply inject_Z_nonneg in Hm. unfold adjustedMonthlyGames.
  split; apply JS_round_mono;
    destruct (getSeasonalMultiplier_cases (monthOfDay day)) as [-> | [-> | ->]]; lra.
Qed.

End EffectiveCountFacts.

(** X8: for non-negative schedule counts the rounded effective counts of
    a day stay within fixed factors of the nominal counts, whatever
    [Math.sin] returns: between round(0.4·n) and round(6/7·n) for the
    daily games, round(0.56·n) and round(1.2·n) for the weekly games,
    round(0.8·n) and round(1.2·n) for the monthly games; in particular
    they are never negative. *)
Theorem effective_counts_bounded {js : JSMath} (inp : Inputs) (day : Z) :
  ((0 <= dailyGames inp)%Z ->
   (0 <= JS.round (inject_Z (dailyGames inp) * (2 # 5)) <= adjustedDailyGames inp day)%Z
   /\ (adjustedDailyGames inp day <= JS.round (inject_Z (dailyGames inp) * (6 # 7)))%Z)
  /\ ((0 <= weeklyGames inp)%Z ->
      (0 <= JS.round (inject_Z (weeklyGames inp) * (56 # 100))
       <= adjustedWeeklyGames inp day)%Z
      /\ (adjustedWeeklyGames inp day
          <= JS.round (inject_Z (weeklyGames inp) * (12 # 10)))%Z)
  /\ ((0 <= monthlyGames inp)%Z ->
      (0 <= JS.round (inject_Z (monthlyGames inp) * (8 # 10))
       <= adjustedMonthlyGames inp day)%Z
      /\ (adjustedMonthlyGames inp day
          <= JS.round (inject_Z (monthlyGames inp) * (12 # 10)))%Z).
Proof.
  split; [| split]; intros Hn.
  - destruct (adjustedDailyGames_range inp day Hn).
    pose proof (JS_round_nonneg (inject_Z (dailyGames inp) * (2 # 5))
                  ltac:(pose proof (inject_Z_nonneg _ Hn); lra)).
    repeat split; assumption.
  - destruct (adjustedWeeklyGames_range inp day Hn).
    pose proof (JS_round_nonneg (inject_Z (weeklyGames inp) * (56 # 100))
                  ltac:(pose proof (inject_Z_nonneg _ Hn); lra)).
    repeat split; assumption.
  - destruct (adjustedMonthlyGames_range inp day Hn).
    pose proof (JS_round_nonneg (inject_Z (monthlyGames inp) * (8 # 10))
                  ltac:(pose proof (inject_Z_nonneg _ Hn); lra)).
    repeat split; assumption.
Qed.

Lemma effective_counts_bounded_witness :
  (2 <= adjustedWeeklyGames (js := triangleMath) defaultInputs 182 <= 4)%Z.
Proof.
  destruct (proj1 (proj2 (effective_counts_bounded (js := triangleMath)
                            defaultInputs 182)) ltac:(vm_compute; discriminate))
    as [[_ Hlo] Hhi].
  split; [exact Hlo | exact Hhi].
Defined.

(** ** Statistical split of the daily games *)

(** X9: when the whole probability is on first place,
    [calculateGameTypePoints] scores every game as a first place, scaled
    by the duration; when it is all on participation (the three other
    probabilities 0) it scores every game as participation, without the
    duration. *)
Theorem game_type_points_degenerate (inp : Inputs) (gameCount gameDuration : Z)
    (d : PlacementDistribution) :
  second d == 0 -> third d == 0 ->
  (first d == 1 ->
   calculateGameTypePoints inp gameCount d gameDuration
   == inject_Z gameCount * firstPlacePointsPerDay inp * inject_Z gameDuration)
  /\ (first d == 0 ->
      calculateGameTypePoints inp gameCount d gameDuration
      == inject_Z gameCount * participationPointsPerDay inp).
Proof.
  intros H2 H3.
  assert (Hs : secondPlaceGames gameCount d = 0%Z).
  { unfold secondPlaceGames, JS.floor. rewrite H2, Qmult_0_r. reflexivity. }
  assert (Ht : thirdPlaceGames gameCount d = 0%Z).
  { unfold thirdPlaceGames, JS.floor. rewrite H3, Qmult_0_r. reflexivity. }
  split; intros H1.
  - assert (Hf : firstPlaceGames gameCount d = gameCount).
    { unfold firstPlaceGames, JS.floor. rewrite H1, Qmult_1_r. apply Qfloor_Z. }
    unfold calculateGameTypePoints, participationGames. rewrite Hf, Hs, Ht.
    replace (gameCount - gameCount - 0 - 0)%Z with 0%Z by lia.
    change (inject_Z 0) with 0. lra.
  - assert (Hf : firstPlaceGames gameCount d = 0%Z).
    { unfold firstPlaceGames, JS.floor. rewrite H1, Qmult_0_r. reflexivity. }
    unfold calculateGameTypePoints, participationGames. rewrite Hf, Hs, Ht.
    replace (gameCount - 0 - 0 - 0)%Z with gameCount by lia.
    change (inject_Z 0) with 0. lra.
Qed.

Lemma game_type_points_degenerate_witness :
  calculateGameTypePoints defaultInputs 4 (distribution Looser) 7
  == inject_Z 4 * participationPointsPerDay defaultInputs.
Proof.
  refine (proj2 (game_type_points_degenerate defaultInputs 4 7 (distribution Looser)
                   _ _) _); reflexivity.
Defined.

(** ** Year simulator *)

Section GrowthFacts.

Context {js : JSMath}.
Variable inp : Inputs.
Variable d : PlacementDistribution.

Hypothesis first_points : 0 <= firstPlacePointsPerDay inp.
Hypothesis second_points : 0 <= secondPlacePointsPerDay inp.
Hypothesis third_points : 0 <= thirdPlacePointsPerDay inp.
Hypothesis participation_points : 0 <= participationPointsPerDay inp.





Hypothesis first_prob : 0 <= first d.
Hypothesis second_prob : 0 <= second d.
Hypothesis third_prob : 0 <= third d.
Hypothesis sub_prob : first d + second d + third d <= 1.

Lemma buckets_nonneg (gameCount : Z) :
  (0 <= gameCount)%Z ->
  (0 <= firstPlaceGames gameCount d)%Z
  /\ (0 <= secondPlaceGames gameCount d)%Z
  /\ (0 <= thirdPlaceGames gameCount d)%Z
  /\ (0 <= participationGames gameCount d)%Z.
Proof.
  intros Hc. pose proof (inject_Z_nonneg gameCount Hc) as Hq.
  pose proof (JS_floor_lb _ 0 (Qmult_le_0_compat _ _ Hq first_prob)) as Hf1.
  pose proof (JS_floor_lb _ 0 (Qmult_le_0_compat _ _ Hq second_prob)) as Hf2.
  pose proof (JS_floor_lb _ 0 (Qmult_le_0_compat _ _ Hq third_prob)) as Hf3.
  destruct (JS_floor_spec (inject_Z gameCount * first d)) as [Hl1 _].
  destruct (JS_floor_spec (inject_Z gameCount * second d)) as [Hl2 _].
  destruct (JS_floor_spec (inject_Z gameCount * third d)) as [Hl3 _].
  destruct (scale_between (inject_Z gameCount) 0 1 (first d + second d + third d)
              Hq ltac:(split; lra)) as [_ Hmul].
  repeat split; try assumption.
  unfold participationGames, firstPlaceGames, secondPlaceGames, thirdPlaceGames.
  assert (Hle : inject_Z (JS.floor (inject_Z gameCount * first d)
                          + JS.floor (inject_Z gameCount * second d)
                          + JS.floor (inject_Z gameCount * third d))
                <= inject_Z gameCount)
    by (rewrite !inject_Z_plus; lra).
  rewrite <- Zle_Qle in Hle. lia.
Qed.





End GrowthFacts.





(** ** Which games are rolled and which are annotated *)

Section RolledKeysFacts.

Context {js : JSMath}.
Variable inp : Inputs.
Variable d : PlacementDistribution.

(** The simulator rolls no daily game individually. *)
Lemma simulateDays_rolled_daily (n : nat) (day g : Z) :
  (n <= 365)%nat -> rolled (simulateDays inp d n) !! (Daily, day, g) = None.
Proof.
  induction n as [| n IH]; intros Hn; [apply lookup_empty |].
  rewrite simulateDays_succ by lia. rewrite simulateDay_unfold. cbn [rolled].
  rewrite monthlyBlock_log, weeklyBlock_log. cbn [snd]. rewrite IH by lia.
  destruct (decide _) as [[Hc _] | _]; [discriminate |].
  destruct (decide _) as [[Hc _] | _]; [discriminate | reflexivity].
Qed.

Lemma generateGameAnnotations_daily (day g : Z) :
  generateGameAnnotations inp d !! (Daily, day, g) = None.
Proof.
  unfold generateGameAnnotations.
  rewrite monthlyAnnotations_lookup, weeklyAnnotations_lookup, lookup_empty.
  destruct (decide _) as [[Hc _] | _]; [discriminate |].
  destruct (decide _) as [[Hc _] | _]; [discriminate | reflexivity].
Qed.

End RolledKeysFacts.

(** X12: the simulator rolls a game individually exactly on the days
    divisible by 7 (weekly games, if any are scheduled) and by 30 (monthly
    games), for the game indices below the rounded effective count of
    that day, each with the roll of its own seed; daily games are never
    rolled individually. *)
Theorem simulator_rolls_exactly {js : JSMath} (inp : Inputs) (d : PlacementDistribution)
    (c : Cadence) (day g : Z) (p : Placement) :
  rolled (chartData inp d) !! (c, day, g) = Some p
  <-> (c = Weekly
       /\ (7 <= day <= 364 /\ day mod 7 = 0)%Z /\ (0 < weeklyGames inp)%Z
       /\ (0 <= g < adjustedWeeklyGames inp day)%Z
       /\ p = rollPlacement d (inject_Z (day / 7 * 1000 + g + weeklySeedOffset inp)))
      \/ (c = Monthly
          /\ (30 <= day <= 360 /\ day mod 30 = 0)%Z /\ (0 < monthlyGames inp)%Z
          /\ (0 <= g < adjustedMonthlyGames inp day)%Z
          /\ p = rollPlacement d (inject_Z (day / 30 * 10000 + g + monthlySeedOffset inp))).
Proof.
  rewrite chartData_simulateDays. destruct c.
  - rewrite simulateDays_rolled_daily by lia. split; [discriminate |].
    intros [(Hc & _) | (Hc & _)]; discriminate.
  - rewrite simulateDays_rolled_weekly by lia.
    destruct (decide _) as [Hyes | Hno]; split.
    + intros [= <-]. left. repeat split; try lia;
        try (Z.to_euclidean_division_equations; lia).
    + intros [(_ & _ & _ & _ & ->) | (Hc & _)]; [reflexivity | discriminate].
    + discriminate.
    + intros [(_ & Hday & Hw & Hg & _) | (Hc & _)]; [| discriminate].
      exfalso. apply Hno. repeat split; try lia;
        try (Z.to_euclidean_division_equations; lia).
  - rewrite simulateDays_rolled_monthly by lia.
    destruct (decide _) as [Hyes | Hno]; split.
    + intros [= <-]. right. repeat split; try lia;
        try (Z.to_euclidean_division_equations; lia).
    + intros [(Hc & _) | (_ & _ & _ & _ & ->)]; [discriminate | reflexivity].
    + discriminate.
    + intros [(Hc & _) | (_ & Hday & Hm & Hg & _)]; [discriminate |].
      exfalso. apply Hno. repeat split; try lia;
        try (Z.to_euclidean_division_equations; lia).
Qed.

(** X13: the annotation object has an entry exactly for the days 7, 14,
    ..., 364 and the game indices below [weeklyGames], and for the days
    30, 60, ..., 360 and the game indices below [monthlyGames], each
    holding the roll of its own seed; no other key is ever written. *)
Theorem annotations_exactly {js : JSMath} (inp : Inputs) (d : PlacementDistribution)
    (c : Cadence) (day g : Z) (p : Placement) :
  generateGameAnnotations inp d !! (c, day, g) = Some p
  <-> (c = Weekly
       /\ (7 <= day <= 364 /\ day mod 7 = 0)%Z
       /\ (0 <= g < weeklyGames inp)%Z
       /\ p = rollPlacement d (inject_Z (day / 7 * 1000 + g + weeklySeedOffset inp)))
      \/ (c = Monthly
          /\ (30 <= day <= 360 /\ day mod 30 = 0)%Z
          /\ (0 <= g < monthlyGames inp)%Z
          /\ p = rollPlacement d (inject_Z (day / 30 * 10000 + g + monthlySeedOffset inp))).
Proof.
  destruct c.
  - rewrite generateGameAnnotations_daily. split; [discriminate |].
    intros [(Hc & _) | (Hc & _)]; discriminate.
  - rewrite generateGameAnnotations_weekly.
    destruct (decide _) as [Hyes | Hno]; split.
    + intros [= <-]. left. repeat split; try lia;
        try (Z.to_euclidean_division_equations; lia).
    + intros [(_ & _ & _ & ->) | (Hc & _)]; [reflexivity | discriminate].
    + discriminate.
    + intros [(_ & Hday & Hg & _) | (Hc & _)]; [| discriminate].
      exfalso. apply Hno. repeat split; try lia;
        try (Z.to_euclidean_division_equations; lia).
  - rewrite generateGameAnnotations_monthly.
    destruct (decide _) as [Hyes | Hno]; split.
    + intros [= <-]. right. repeat split; try lia;
        try (Z.to_euclidean_division_equations; lia).
    + intros [(Hc & _) | (_ & _ & _ & ->)]; [discriminate | reflexivity].
    + discriminate.
    + intros [(Hc & _) | (_ & Hday & Hg & _)]; [discriminate |].
      exfalso. apply Hno. repeat split; try lia;
        try (Z.to_euclidean_division_equations; lia).
Qed.

Lemma is_Some_if_decide {A : Type} (P : Prop) {dec : Decision P} (x : A) :
  is_Some (if decide P then Some x else None) <-> P.
Proof.
  destruct (decide P) as [HP | HP]; split; try tauto.
  - intros _. eexists. reflexivity.
  - intros [y Hy]. discriminate.
Qed.

Lemma None_if_decide {A : Type} (P : Prop) {dec : Decision P} (x : A) :
  (if decide P then Some x else None) = None <-> ~ P.
Proof. destruct (decide P) as [HP | HP]; split; try tauto; discriminate. Qed.

(** X14: on the day of week occurrence w, the annotation generator marks
    a game the simulator did not roll exactly for the game indices from
    the rounded effective count up to [weeklyGames], and the simulator
    rolls a game that has no marker exactly for the indices from
    [weeklyGames] up to the effective count; the two agree on the game
    indices below both counts. *)
Theorem markers_versus_rolls {js : JSMath} (inp : Inputs) (d : PlacementDistribution)
    (w g : Z) :
  (1 <= w <= 52)%Z -> (0 < weeklyGames inp)%Z -> (0 <= g)%Z ->
  let key : AnnotationKey := (Weekly, (7 * w)%Z, g) in
  (is_Some (generateGameAnnotations inp d !! key) /\ rolled (chartData inp d) !! key = None
   <-> (adjustedWeeklyGames inp (7 * w) <= g < weeklyGames inp)%Z)
  /\ (is_Some (rolled (chartData inp d) !! key) /\ generateGameAnnotations inp d !! key = None
      <-> (weeklyGames inp <= g < adjustedWeeklyGames inp (7 * w))%Z)
  /\ (is_Some (rolled (chartData inp d) !! key)
      /\ is_Some (generateGameAnnotations inp d !! key)
      <-> (g < weeklyGames inp /\ g < adjustedWeeklyGames inp (7 * w))%Z).
Proof.
  intros Hw Hwg Hg key. unfold key.
  assert (Hdiv : (7 * w / 7 = w)%Z) by (Z.to_euclidean_division_equations; lia).
  assert (Hmod : ((7 * w) mod 7 = 0)%Z) by (Z.to_euclidean_division_equations; lia).
  rewrite generateGameAnnotations_weekly, chartData_simulateDays.
  rewrite simulateDays_rolled_weekly by lia. rewrite Hdiv.
  rewrite !is_Some_if_decide, !None_if_decide. repeat split; lia.
Qed.

Lemma markers_versus_rolls_witness :
  is_Some (generateGameAnnotations (js := triangleMath) defaultInputs
             (distribution Average) !! (Weekly, (7 * 26)%Z, 2%Z))
  /\ rolled (chartData (js := triangleMath) defaultInputs (distribution Average))
       !! (Weekly, (7 * 26)%Z, 2%Z) = None.
Proof.
  apply (proj1 (markers_versus_rolls (js := triangleMath) defaultInputs
                  (distribution Average) 26 2
                  ltac:(lia) ltac:(vm_compute; reflexivity) ltac:(lia))).
  vm_compute. split; congruence.
Defined.

(** ** The number of annotations *)

Lemma NoDup_indicesBelow (n : Z) : NoDup (indicesBelow n).
Proof.
  unfold indicesBelow. apply NoDup_fmap_2_strong; [| apply NoDup_seq].
  intros x y _ _ Hxy. lia.
Qed.

Lemma length_indicesBelow (n : Z) : length (indicesBelow n) = Z.to_nat n.
Proof. unfold indicesBelow. now rewrite length_map, length_seq. Qed.

Lemma elem_of_occurrenceKeys (c : Cadence) (step occurrences count : Z)
    (key : AnnotationKey) :
  key ∈ occurrenceKeys c step occurrences count
  <-> exists w g : Z,
        (1 <= w <= occurrences /\ 0 <= g < count)%Z /\ key = (c, (step * w)%Z, g).
Proof.
  unfold occurrenceKeys. rewrite list_elem_of_bind. split.
  - intros (w & Hkey & Hw).
    apply list_elem_of_fmap in Hkey as (g & -> & Hg).
    apply list_elem_of_fmap in Hw as (i & -> & Hi).
    apply elem_of_indicesBelow in Hg. apply elem_of_seq in Hi.
    exists (Z.of_nat i + 1)%Z, g. split; [lia | reflexivity].
  - intros (w & g & (Hw & Hg) & ->). exists w. split.
    + apply list_elem_of_fmap. exists g. split; [reflexivity |].
      now apply elem_of_indicesBelow.
    + apply list_elem_of_fmap. exists (Z.to_nat (w - 1)). split; [lia |].
      apply elem_of_seq. lia.
Qed.

Lemma NoDup_occurrenceKeys (c : Cadence) (step occurrences count : Z) :
  step <> 0%Z -> NoDup (occurrenceKeys c step occurrences count).
Proof.
  intros Hstep. unfold occurrenceKeys. apply NoDup_bind.
  - intros w1 w2 key _ _ H1 H2.
    apply list_elem_of_fmap in H1 as (g1 & -> & _).
    apply list_elem_of_fmap in H2 as (g2 & Heq & _).
    injection Heq as Hday _. nia.
  - intros w _. apply NoDup_fmap_2_strong; [| apply NoDup_indicesBelow].
    intros g1 g2 _ _ Heq. now injection Heq.
  - apply NoDup_fmap_2_strong; [| apply NoDup_seq].
    intros x y _ _ Hxy. lia.
Qed.

Lemma length_occurrenceKeys (c : Cadence) (step occurrences count : Z) :
  length (occurrenceKeys c step occurrences count)
  = (Z.to_nat occurrences * Z.to_nat count)%nat.
Proof.
  unfold occurrenceKeys.
  assert (Hl : forall l : list Z,
             length (l ≫= fun w => map (fun g => (c, (step * w)%Z, g)) (indicesBelow count))
             = (length l * Z.to_nat count)%nat).
  { induction l as [| w l IH]; [reflexivity |].
    rewrite bind_cons, length_app, IH, length_map, length_indicesBelow.
    cbn [length]. lia. }
  rewrite Hl, length_map, length_seq. reflexivity.
Qed.

Section AnnotationCountFacts.

Context {js : JSMath}.
Variable inp : Inputs.
Variable d : PlacementDistribution.

Lemma annotationKeys_spec (key : AnnotationKey) :
  key ∈ annotationKeys inp <-> is_Some (generateGameAnnotations inp d !! key).
Proof.
  unfold annotationKeys. rewrite elem_of_app, !elem_of_occurrenceKeys.
  destruct key as [[c day] g]. destruct c.
  - rewrite generateGameAnnotations_daily. split.
    + intros [(w & g' & _ & Heq) | (w & g' & _ & Heq)]; discriminate.
    + intros [x Hx]. discriminate.
  - rewrite generateGameAnnotations_weekly, is_Some_if_decide. split.
    + intros [(w & g' & Hr & Heq) | (w & g' & _ & Heq)]; [| discriminate].
      injection Heq as -> ->. repeat split; try lia;
        Z.to_euclidean_division_equations; lia.
    + intros ((Hw & Hmod) & Hg). left. exists (day / 7)%Z, g.
      split; [lia |]. do 2 f_equal. Z.to_euclidean_division_equations; lia.
  - rewrite generateGameAnnotations_monthly, is_Some_if_decide. split.
    + intros [(w & g' & _ & Heq) | (w & g' & Hr & Heq)]; [discriminate |].
      injection Heq as -> ->. repeat split; try lia;
        Z.to_euclidean_division_equations; lia.
    + intros ((Hw & Hmod) & Hg). right. exists (day / 30)%Z, g.
      split; [lia |]. do 2 f_equal. Z.to_euclidean_division_equations; lia.
Qed.

Lemma NoDup_annotationKeys : NoDup (annotationKeys inp).
Proof.
  unfold annotationKeys. apply NoDup_app. split; [| split].
  - apply NoDup_occurrenceKeys. discriminate.
  - intros key Hw Hm.
    apply elem_of_occurrenceKeys in Hw as (w & g & _ & ->).
    apply elem_of_occurrenceKeys in Hm as (w' & g' & _ & Heq). discriminate.
  - apply NoDup_occurrenceKeys. discriminate.
Qed.

Lemma annotations_dom :
  dom (generateGameAnnotations inp d) = list_to_set (annotationKeys inp).
Proof.
  apply set_eq. intros key.
  rewrite elem_of_dom, elem_of_list_to_set. symmetry. apply annotationKeys_spec.
Qed.

End AnnotationCountFacts.

(** X15: the annotation object holds one entry for each of the 52 weekly
    occurrences and each game index below [weeklyGames], and one for each
    of the 12 monthly occurrences and each game index below
    [monthlyGames]: 52·weeklyGames + 12·monthlyGames entries, which for
    non-negative counts is [totalGamesPerYear] without the daily games. *)
Theorem annotation_count {js : JSMath} (inp : Inputs) (d : PlacementDistribution) :
  size (generateGameAnnotations inp d)
  = (52 * Z.to_nat (weeklyGames inp) + 12 * Z.to_nat (monthlyGames inp))%nat
  /\ ((0 <= weeklyGames inp)%Z -> (0 <= monthlyGames inp)%Z ->
      Z.of_nat (size (generateGameAnnotations inp d))
      = (totalGamesPerYear inp - dailyGames inp * 365)%Z).
Proof.
  assert (Hsize : size (generateGameAnnotations inp d)
                  = (52 * Z.to_nat (weeklyGames inp)
                     + 12 * Z.to_nat (monthlyGames inp))%nat).
  { rewrite <- size_dom, annotations_dom.
    rewrite size_list_to_set by apply NoDup_annotationKeys.
    unfold annotationKeys. rewrite length_app, !length_occurrenceKeys. reflexivity. }
  split; [exact Hsize |].
  intros Hw Hm. rewrite Hsize. unfold totalGamesPerYear. lia.
Qed.

Lemma annotation_count_witness :
  Z.of_nat (size (generateGameAnnotations (js := triangleMath) defaultInputs
                    (distribution Average)))
  = (totalGamesPerYear defaultInputs - dailyGames defaultInputs * 365)%Z.
Proof.
  apply (proj2 (annotation_count (js := triangleMath) defaultInputs
                  (distribution Average))); vm_compute; discriminate.
Defined.

(** ** Yearly statistics *)


(** ** The cadences add up *)

Lemma sumDays_ext (f g : Z -> Q) (n : nat) :
  (forall day, f day == g day) -> sumDays f n == sumDays g n.
Proof.
  intros Hfg. induction n as [| n IH]; cbn [sumDays]; [reflexivity |].
  rewrite IH, Hfg. reflexivity.
Qed.

Lemma sumDays_zero (n : nat) : sumDays (fun _ => 0) n == 0.
Proof. induction n as [| n IH]; cbn [sumDays]; [reflexivity | rewrite IH; lra]. Qed.

Section CadenceFacts.

Context {js : JSMath}.
Variable d : PlacementDistribution.

(** The counters the loop has reached before [day]. *)
Let weekBefore (inp : Inputs) (day : Z) : Z :=
  (if (0 <? weeklyGames inp)%Z then (day - 1) / 7 else 0)%Z.
Let monthBefore (inp : Inputs) (day : Z) : Z :=
  (if (0 <? monthlyGames inp)%Z then (day - 1) / 30 else 0)%Z.

Lemma simulateDays_sum (inp : Inputs) (n : nat) :
  (n <= 365)%nat ->
  cumulativePoints (simulateDays inp d n)
  == sumDays (dailyContribution inp d) n
     + sumDays (fun day => weeklyContribution inp d day (weekBefore inp day)) n
     + sumDays (fun day => monthlyContribution inp d day (monthBefore inp day)) n.
Proof.
  induction n as [| n IH]; intros Hn; [reflexivity |].
  rewrite simulateDays_succ by lia. rewrite simulateDay_points, IH by lia.
  destruct (simulateDays_counters inp d n ltac:(lia)) as [-> ->].
  cbn [sumDays]. unfold weekBefore, monthBefore.
  replace (Z.of_nat n + 1 - 1)%Z with (Z.of_nat n) by lia. lra.
Qed.

Lemma weeklyContribution_unscheduled (inp : Inputs) (day wc : Z) :
  weeklyGames inp = 0%Z -> weeklyContribution inp d day wc = 0.
Proof.
  intros Hw. unfold weeklyContribution, weeklyBlock. cbv zeta.
  rewrite Hw. change (0 <? 0)%Z with false. now rewrite andb_false_r.
Qed.

Lemma monthlyContribution_unscheduled (inp : Inputs) (day mc : Z) :
  monthlyGames inp = 0%Z -> monthlyContribution inp d day mc = 0.
Proof.
  intros Hm. unfold monthlyContribution, monthlyBlock. cbv zeta.
  rewrite Hm. change (0 <? 0)%Z with false. now rewrite andb_false_r.
Qed.

Lemma dailyContribution_unscheduled (inp : Inputs) (day : Z) :
  dailyGames inp = 0%Z -> dailyContribution inp d day = 0.
Proof. intros Hd. unfold dailyContribution, dailyBlock. now rewrite Hd. Qed.

Lemma simulateDays_split (inp : Inputs) (n : nat) :
  (n <= 365)%nat ->
  cumulativePoints (simulateDays inp d n)
  == cumulativePoints (simulateDays (dailyOnly inp) d n)
     + cumulativePoints (simulateDays (weeklyOnly inp) d n)
     + cumulativePoints (simulateDays (monthlyOnly inp) d n).
Proof.
  intros Hn. rewrite !simulateDays_sum by assumption.
  rewrite (sumDays_ext (fun day => weeklyContribution (dailyOnly inp) d day _)
             (fun _ => 0))
    by (intros; now rewrite weeklyContribution_unscheduled).
  rewrite (sumDays_ext (fun day => monthlyContribution (dailyOnly inp) d day _)
             (fun _ => 0))
    by (intros; now rewrite monthlyContribution_unscheduled).
  rewrite (sumDays_ext (dailyContribution (weeklyOnly inp) d) (fun _ => 0))
    by (intros; now rewrite dailyContribution_unscheduled).
  rewrite (sumDays_ext (fun day => monthlyContribution (weeklyOnly inp) d day _)
             (fun _ => 0))
    by (intros; now rewrite monthlyContribution_unscheduled).
  rewrite (sumDays_ext (dailyContribution (monthlyOnly inp) d) (fun _ => 0))
    by (intros; now rewrite dailyContribution_unscheduled).
  rewrite (sumDays_ext (fun day => weeklyContribution (monthlyOnly inp) d day _)
             (fun _ => 0))
    by (intros; now rewrite weeklyContribution_unscheduled).
  rewrite !sumDays_zero.
  change (sumDays (dailyContribution (dailyOnly inp) d) n)
    with (sumDays (dailyContribution inp d) n).
  change (sumDays (fun day => weeklyContribution (weeklyOnly inp) d day
                                (weekBefore (weeklyOnly inp) day)) n)
    with (sumDays (fun day => weeklyContribution inp d day (weekBefore inp day)) n).
  change (sumDays (fun day => monthlyContribution (monthlyOnly inp) d day
                                (monthBefore (monthlyOnly inp) day)) n)
    with (sumDays (fun day => monthlyContribution inp d day (monthBefore inp day)) n).
  lra.
Qed.

End CadenceFacts.

(** *** Integral inputs *)

Lemma integralPoints_spec (q : Q) :
  integralPoints q = true -> integerUpTo 1000000 q.
Proof.
  unfold integralPoints. rewrite !andb_true_iff, Qeq_bool_iff, !Z.leb_le.
  intros [[Heq Hlo] Hhi]. exists (Qfloor q). auto.
Qed.

Lemma integerUpTo_proper (b : Z) (q q' : Q) :
  q == q' -> integerUpTo b q -> integerUpTo b q'.
Proof. intros Heq (z & Hz & Hb). exists z. split; [now rewrite <- Heq | assumption]. Qed.

Lemma integerUpTo_le (b b' : Z) (q : Q) :
  (b <= b')%Z -> integerUpTo b q -> integerUpTo b' q.
Proof. intros Hle (z & Hz & Hb). exists z. split; [assumption | lia]. Qed.

Lemma integerUpTo_zero (b : Z) : (0 <= b)%Z -> integerUpTo b 0.
Proof. intros Hb. exists 0%Z. split; [reflexivity | lia]. Qed.

Lemma integerUpTo_add (a b : Z) (x y : Q) :
  integerUpTo a x -> integerUpTo b y -> integerUpTo (a + b) (x + y).
Proof.
  intros (zx & Hx & Hbx) (zy & Hy & Hby). exists (zx + zy)%Z.
  split; [rewrite inject_Z_plus, Hx, Hy; reflexivity | lia].
Qed.

Lemma integerUpTo_mul (n : Z) (a b : Z) (x : Q) :
  (0 <= n <= a)%Z -> integerUpTo b x -> integerUpTo (a * b) (inject_Z n * x).
Proof.
  intros Hn (z & Hx & Hb). exists (n * z)%Z.
  split; [rewrite inject_Z_mult, Hx; reflexivity | nia].
Qed.

Lemma integerUpTo_nonneg (b : Z) (q : Q) : integerUpTo b q -> 0 <= q.
Proof. intros (z & -> & Hz). apply inject_Z_nonneg. lia. Qed.

Section IntegralFacts.

Context {js : JSMath}.
Variable inp : Inputs.
Variable d : PlacementDistribution.

Hypothesis integral : integralInputs inp = true.
Hypothesis sub : subDistribution d = true.

Lemma integralInputs_spec :
  integerUpTo 1000000 (firstPlacePointsPerDay inp)
  /\ integerUpTo 1000000 (secondPlacePointsPerDay inp)
  /\ integerUpTo 1000000 (thirdPlacePointsPerDay inp)
  /\ integerUpTo 1000000 (participationPointsPerDay inp)
  /\ (0 <= dailyGames inp <= 1000)%Z
  /\ (0 <= weeklyGames inp <= 1000)%Z
  /\ (0 <= monthlyGames inp <= 1000)%Z.
Proof.
  pose proof integral as H. unfold integralInputs, scheduleCount in H.
  rewrite !andb_true_iff, !Z.leb_le in H.
  destruct H as [[[[[[H1 H2] H3] H4] H5] H6] H7].
  repeat split; try (now apply integralPoints_spec); lia.
Qed.

Lemma subDistribution_spec :
  0 <= first d /\ 0 <= second d /\ 0 <= third d
  /\ first d + second d + third d <= 1.
Proof.
  pose proof sub as H. unfold subDistribution in H.
  rewrite !andb_true_iff, !Qle_bool_iff in H. tauto.
Qed.

(** The points of one rolled game. *)
Lemma getPointsForPlacement_integral (p : Placement) (c : Cadence) :
  integerUpTo (1000000 * 30) (getPointsForPlacement inp p (GAME_DURATIONS c)).
Proof.
  destruct integralInputs_spec as (H1 & H2 & H3 & H4 & _).
  assert (Hdur : (0 <= GAME_DURATIONS c <= 30)%Z) by (destruct c; cbn; lia).
  destruct p; cbn [getPointsForPlacement].
  - apply integerUpTo_proper with (inject_Z (GAME_DURATIONS c) * firstPlacePointsPerDay inp);
      [apply Qmult_comm |].
    apply integerUpTo_le with (30 * 1000000)%Z; [lia |]. now apply integerUpTo_mul.
  - apply integerUpTo_proper with (inject_Z (GAME_DURATIONS c) * secondPlacePointsPerDay inp);
      [apply Qmult_comm |].
    apply integerUpTo_le with (30 * 1000000)%Z; [lia |]. now apply integerUpTo_mul.
  - apply integerUpTo_proper with (inject_Z (GAME_DURATIONS c) * thirdPlacePointsPerDay inp);
      [apply Qmult_comm |].
    apply integerUpTo_le with (30 * 1000000)%Z; [lia |]. now apply integerUpTo_mul.
  - apply integerUpTo_le with 1000000%Z; [lia | assumption].
Qed.

Lemma gamesPoints_integral (c : Cadence) (seedOf : Z -> Z) (l : list Z) :
  integerUpTo (Z.of_nat (length l) * (1000000 * 30)) (gamesPoints inp d c seedOf l).
Proof.
  induction l as [| g l IH]; cbn [gamesPoints length].
  - apply integerUpTo_zero. lia.
  - replace (Z.of_nat (S (length l)) * (1000000 * 30))%Z
      with (1000000 * 30 + Z.of_nat (length l) * (1000000 * 30))%Z by lia.
    apply integerUpTo_add; [apply getPointsForPlacement_integral | assumption].
Qed.

Lemma JS_round_1200 (n : Z) :
  (0 <= n <= 1000)%Z -> (JS.round (inject_Z n * (12 # 10)) <= 1200)%Z.
Proof.
  intros Hn. change 1200%Z with (JS.round (inject_Z 1000 * (12 # 10))).
  apply JS_round_mono.
  assert (H : inject_Z n <= inject_Z 1000) by (rewrite <- Zle_Qle; lia). lra.
Qed.

Lemma weeklyContribution_integral (day wc : Z) :
  integerUpTo (1200 * (1000000 * 30)) (weeklyContribution inp d day wc).
Proof.
  destruct integralInputs_spec as (_ & _ & _ & _ & _ & Hw & _).
  unfold weeklyContribution, weeklyBlock. cbv zeta.
  destruct (_ && _)%Z; cbn [snd fst]; [| apply integerUpTo_zero; lia].
  unfold rollGames.
  eapply integerUpTo_proper; [symmetry; apply rollGames_points |]. cbn [fst].
  eapply integerUpTo_proper; [symmetry; apply Qplus_0_l |].
  eapply integerUpTo_le; [| apply gamesPoints_integral].
  rewrite length_indicesBelow.
  destruct (adjustedWeeklyGames_range inp day ltac:(lia)) as [_ Hhi].
  pose proof (JS_round_1200 (weeklyGames inp) Hw). nia.
Qed.

Lemma monthlyContribution_integral (day mc : Z) :
  integerUpTo (1200 * (1000000 * 30)) (monthlyContribution inp d day mc).
Proof.
  destruct integralInputs_spec as (_ & _ & _ & _ & _ & _ & Hm).
  unfold monthlyContribution, monthlyBlock. cbv zeta.
  destruct (_ && _)%Z; cbn [snd fst]; [| apply integerUpTo_zero; lia].
  unfold rollGames.
  eapply integerUpTo_proper; [symmetry; apply rollGames_points |]. cbn [fst].
  eapply integerUpTo_proper; [symmetry; apply Qplus_0_l |].
  eapply integerUpTo_le; [| apply gamesPoints_integral].
  rewrite length_indicesBelow.
  destruct (adjustedMonthlyGames_range inp day ltac:(lia)) as [_ Hhi].
  pose proof (JS_round_1200 (monthlyGames inp) Hm). nia.
Qed.

(** The statistical split of the daily games. *)
Lemma calculateGameTypePoints_integral (gameCount : Z) :
  (0 <= gameCount <= 1200)%Z ->
  integerUpTo (1200 * (1000000 * 30))
    (calculateGameTypePoints inp gameCount d (GAME_DURATIONS Daily)).
Proof.
  intros Hc.
  destruct integralInputs_spec as ((z1 & Hz1 & Hb1) & (z2 & Hz2 & Hb2)
                                   & (z3 & Hz3 & Hb3) & (z4 & Hz4 & Hb4) & _).
  destruct subDistribution_spec as (Hp1 & Hp2 & Hp3 & Hsum).
  destruct (buckets_nonneg d Hp1 Hp2 Hp3 Hsum gameCount ltac:(lia))
    as (Hf & Hs & Ht & Hp).
  unfold calculateGameTypePoints. cbn [GAME_DURATIONS].
  exists (firstPlaceGames gameCount d * z1 * 1
          + secondPlaceGames gameCount d * z2 * 1
          + thirdPlaceGames gameCount d * z3 * 1
          + participationGames gameCount d * z4)%Z.
  split.
  - rewrite !inject_Z_plus, !inject_Z_mult, Hz1, Hz2, Hz3, Hz4. reflexivity.
  - unfold participationGames in *.
    set (f := firstPlaceGames gameCount d) in *.
    set (s := secondPlaceGames gameCount d) in *.
    set (t := thirdPlaceGames gameCount d) in *.
    nia.
Qed.

Lemma dailyContribution_integral (day : Z) :
  integerUpTo (1200 * (1000000 * 30)) (dailyContribution inp d day).
Proof.
  destruct integralInputs_spec as (_ & _ & _ & _ & Hd & _).
  unfold dailyContribution, dailyBlock.
  destruct (0 <? dailyGames inp)%Z; [| apply integerUpTo_zero; lia].
  eapply integerUpTo_proper; [symmetry; apply Qplus_0_l |].
  apply calculateGameTypePoints_integral.
  destruct (adjustedDailyGames_range inp day ltac:(lia)) as [Hlo Hhi].
  pose proof (JS_round_nonneg (inject_Z (dailyGames inp) * (2 # 5))
                ltac:(pose proof (inject_Z_nonneg (dailyGames inp) ltac:(lia)); lra)).
  assert (JS.round (inject_Z (dailyGames inp) * (6 # 7)) <= 1200)%Z.
  { change 1200%Z with (JS.round (inject_Z 1000 * (12 # 10))). apply JS_round_mono.
    assert (H1 : inject_Z (dailyGames inp) <= inject_Z 1000) by (rewrite <- Zle_Qle; lia).
    pose proof (inject_Z_nonneg (dailyGames inp) ltac:(lia)). lra. }
  lia.
Qed.

(** The running total is an integer that grows by at most [dayBound]
    a day. *)
Lemma simulateDays_integral (n : nat) :
  (n <= 365)%nat ->
  integerUpTo (Z.of_nat n * dayBound) (cumulativePoints (simulateDays inp d n)).
Proof.
  induction n as [| n IH]; intros Hn.
  - apply integerUpTo_zero. lia.
  - rewrite simulateDays_succ by lia.
    eapply integerUpTo_proper; [symmetry; apply simulateDay_points |].
    replace (Z.of_nat (S n) * dayBound)%Z
      with (Z.of_nat n * dayBound + 1200 * (1000000 * 30)
            + 1200 * (1000000 * 30) + 1200 * (1000000 * 30))%Z
      by (unfold dayBound; lia).
    repeat apply integerUpTo_add.
    + apply IH. lia.
    + apply dailyContribution_integral.
    + apply weeklyContribution_integral.
    + apply monthlyContribution_integral.
Qed.

End IntegralFacts.

Lemma yearBound_exact : (yearBound < 2 ^ 53)%Z.
Proof. reflexivity. Qed.

Lemma integralInputs_dailyOnly (inp : Inputs) :
  integralInputs inp = true -> integralInputs (dailyOnly inp) = true.
Proof.
  unfold integralInputs. cbn [dailyOnly firstPlacePointsPerDay secondPlacePointsPerDay
    thirdPlacePointsPerDay participationPointsPerDay dailyGames weeklyGames monthlyGames].
  rewrite !andb_true_iff. intros [[[[[[H1 H2] H3] H4] H5] H6] H7]. repeat split; assumption.
Qed.

Lemma integralInputs_weeklyOnly (inp : Inputs) :
  integralInputs inp = true -> integralInputs (weeklyOnly inp) = true.
Proof.
  unfold integralInputs. cbn [weeklyOnly firstPlacePointsPerDay secondPlacePointsPerDay
    thirdPlacePointsPerDay participationPointsPerDay dailyGames weeklyGames monthlyGames].
  rewrite !andb_true_iff. intros [[[[[[H1 H2] H3] H4] H5] H6] H7]. repeat split; assumption.
Qed.

Lemma integralInputs_monthlyOnly (inp : Inputs) :
  integralInputs inp = true -> integralInputs (monthlyOnly inp) = true.
Proof.
  unfold integralInputs. cbn [monthlyOnly firstPlacePointsPerDay secondPlacePointsPerDay
    thirdPlacePointsPerDay participationPointsPerDay dailyGames weeklyGames monthlyGames].
  rewrite !andb_true_iff. intros [[[[[[H1 H2] H3] H4] H5] H6] H7]. repeat split; assumption.
Qed.

(** X17: on integral inputs the three cadences contribute independently:
    on every day the cumulative total of the simulation equals the sum of
    the cumulative totals of three simulations that keep only the daily,
    only the weekly and only the monthly games of the same inputs; the
    four totals are integers of at most [yearBound], which is below 2^53,
    so that no sum behind them is rounded. *)
Theorem integral_cadences_add_up {js : JSMath} (inp : Inputs)
    (d : PlacementDistribution) (i : nat) :
  integralInputs inp = true -> subDistribution d = true ->
  (i < 365)%nat ->
  exists p pd pw pm : Q,
    dailyPointsData (chartData inp d) !! i = Some p
    /\ dailyPointsData (chartData (dailyOnly inp) d) !! i = Some pd
    /\ dailyPointsData (chartData (weeklyOnly inp) d) !! i = Some pw
    /\ dailyPointsData (chartData (monthlyOnly inp) d) !! i = Some pm
    /\ p == pd + pw + pm
    /\ integerUpTo yearBound p /\ integerUpTo yearBound pd
    /\ integerUpTo yearBound pw /\ integerUpTo yearBound pm
    /\ (yearBound < 2 ^ 53)%Z.
Proof.
  intros Hinp Hd Hi. rewrite !chartData_simulateDays.
  destruct (simulateDays_data inp d 365 i ltac:(lia) Hi) as (Hp & _).
  destruct (simulateDays_data (dailyOnly inp) d 365 i ltac:(lia) Hi) as (Hpd & _).
  destruct (simulateDays_data (weeklyOnly inp) d 365 i ltac:(lia) Hi) as (Hpw & _).
  destruct (simulateDays_data (monthlyOnly inp) d 365 i ltac:(lia) Hi) as (Hpm & _).
  assert (Hbound : (Z.of_nat (S i) * dayBound <= yearBound)%Z)
    by (unfold yearBound, dayBound; lia).
  exists (cumulativePoints (simulateDays inp d (S i))),
    (cumulativePoints (simulateDays (dailyOnly inp) d (S i))),
    (cumulativePoints (simulateDays (weeklyOnly inp) d (S i))),
    (cumulativePoints (simulateDays (monthlyOnly inp) d (S i))).
  split; [exact Hp |]. split; [exact Hpd |]. split; [exact Hpw |].
  split; [exact Hpm |].
  split; [apply simulateDays_split; lia |].
  split; [| split; [| split; [| split]]].
  - eapply integerUpTo_le; [exact Hbound |].
    apply simulateDays_integral; [assumption | assumption | lia].
  - eapply integerUpTo_le; [exact Hbound |].
    apply simulateDays_integral;
      [now apply integralInputs_dailyOnly | assumption | lia].
  - eapply integerUpTo_le; [exact Hbound |].
    apply simulateDays_integral;
      [now apply integralInputs_weeklyOnly | assumption | lia].
  - eapply integerUpTo_le; [exact Hbound |].
    apply simulateDays_integral;
      [now apply integralInputs_monthlyOnly | assumption | lia].
  - exact yearBound_exact.
Qed.

Lemma integral_cadences_add_up_witness :
  exists p pd pw pm : Q,
    dailyPointsData (chartData (js := triangleMath) defaultInputs (distribution Average))
      !! 364%nat = Some p
    /\ dailyPointsData (chartData (js := triangleMath) (dailyOnly defaultInputs)
                          (distribution Average)) !! 364%nat = Some pd
    /\ dailyPointsData (chartData (js := triangleMath) (weeklyOnly defaultInputs)
                          (distribution Average)) !! 364%nat = Some pw
    /\ dailyPointsData (chartData (js := triangleMath) (monthlyOnly defaultInputs)
                          (distribution Average)) !! 364%nat = Some pm
    /\ p == pd + pw + pm.
Proof.
  destruct (integral_cadences_add_up (js := triangleMath) defaultInputs
              (distribution Average) 364)
    as (p & pd & pw & pm & Hp & Hpd & Hpw & Hpm & Hsum & _).
  - vm_compute. reflexivity.
  - vm_compute. reflexivity.
  - lia.
  - exists p, pd, pw, pm. auto.
Defined.

Section SingleWeeklyGame.

Context {js : JSMath}.
Variable inp : Inputs.

Let allFirst : PlacementDistribution :=
  {| first := 1; second := 0; third := 0; participation := 0 |}.

Lemma simulateDays_single_weekly (n : nat) :
  dailyGames inp = 0%Z -> weeklyGames inp = 1%Z -> monthlyGames inp = 0%Z ->
  (n <= 365)%nat ->
  cumulativePoints (simulateDays inp allFirst n)
  == inject_Z (Z.of_nat n / 7) * (firstPlacePointsPerDay inp * 7).
Proof.
  intros Hd Hw Hm. induction n as [| n IH]; intros Hn.
  - change (cumulativePoints (simulateDays inp allFirst 0)) with 0.
    change (inject_Z (Z.of_nat 0 / 7)) with 0. lra.
  - rewrite simulateDays_succ by lia. rewrite simulateDay_points, IH by lia.
    rewrite dailyContribution_unscheduled, monthlyContribution_unscheduled
      by assumption.
    rewrite weeklyContribution_one by (assumption || (unfold allFirst; cbn [first]; lra)).
    replace (Z.of_nat (S n)) with (Z.of_nat n + 1)%Z by lia.
    destruct (Z.eqb_spec ((Z.of_nat n + 1) mod 7) 0) as [H7 | H7].
    + replace ((Z.of_nat n + 1) / 7)%Z with (Z.of_nat n / 7 + 1)%Z
        by (Z.to_euclidean_division_equations; lia).
      rewrite inject_Z_plus. change (inject_Z 1) with 1. lra.
    + replace ((Z.of_nat n + 1) / 7)%Z with (Z.of_nat n / 7)%Z
        by (Z.to_euclidean_division_equations; lia).
      lra.
Qed.

End SingleWeeklyGame.

(** X18: with one weekly game, no daily or monthly games, the whole
    probability on first place and an integral number z of points for a
    first place, 0 <= z <= 10^6, the cumulative total after day n is the
    integer 7 · z for each completed week, floor(n / 7) of them, so the
    year ends at 52 · 7 · z = 364 · z. *)
Theorem integral_single_weekly_game_totals {js : JSMath} (inp : Inputs) (i : nat) :
  integralPoints (firstPlacePointsPerDay inp) = true ->
  dailyGames inp = 0%Z -> weeklyGames inp = 1%Z -> monthlyGames inp = 0%Z ->
  (i < 365)%nat ->
  let d := {| first := 1; second := 0; third := 0; participation := 0 |} in
  let z := Qfloor (firstPlacePointsPerDay inp) in
  exists p : Q,
    dailyPointsData (chartData inp d) !! i = Some p
    /\ p == inject_Z ((Z.of_nat i + 1) / 7 * (z * 7))
    /\ (0 <= (Z.of_nat i + 1) / 7 * (z * 7) <= 364000000)%Z
    /\ (i = 364%nat -> p == inject_Z (364 * z)).
Proof.
  intros Hz Hd Hw Hm Hi d z. subst d z. rewrite chartData_simulateDays.
  set (d := {| first := 1; second := 0; third := 0; participation := 0 |}).
  destruct (integralPoints_spec _ Hz) as (z' & Hz' & Hb).
  assert (Hfloor : Qfloor (firstPlacePointsPerDay inp) = z')
    by (rewrite Hz'; apply Qfloor_Z).
  rewrite Hfloor.
  destruct (simulateDays_data inp d 365 i ltac:(lia) Hi) as (Hp & _).
  pose proof (simulateDays_single_weekly inp (S i) Hd Hw Hm ltac:(lia)) as Hsum.
  fold d in Hsum.
  replace (Z.of_nat (S i)) with (Z.of_nat i + 1)%Z in Hsum by lia.
  set (p := cumulativePoints (simulateDays inp d (S i))) in *.
  clearbody p. exists p.
  assert (Hp' : p == inject_Z ((Z.of_nat i + 1) / 7 * (z' * 7))).
  { eapply Qeq_trans; [exact Hsum |].
    rewrite !inject_Z_mult, Hz'. reflexivity. }
  split; [exact Hp |]. split; [exact Hp' |]. split.
  - assert (0 <= (Z.of_nat i + 1) / 7 <= 52)%Z
      by (Z.to_euclidean_division_equations; lia).
    nia.
  - intros ->. eapply Qeq_trans; [exact Hp' |].
    change ((Z.of_nat 364 + 1) / 7)%Z with 52%Z.
    rewrite !inject_Z_mult. change (inject_Z 52) with 52.
    change (inject_Z 7) with 7. change (inject_Z 364) with 364. lra.
Qed.

Lemma integral_single_weekly_game_totals_witness :
  exists p : Q,
    dailyPointsData
      (chartData (js := triangleMath)
         {| selectedProfile := WinsEverything;
            dailyGames := 0; weeklyGames := 1; monthlyGames := 0;
            firstPlacePointsPerDay := 5; secondPlacePointsPerDay := 3;
            thirdPlacePointsPerDay := 2; participationPointsPerDay := 1;
            coefficients := coefficients defaultInputs |}
         {| first := 1; second := 0; third := 0; participation := 0 |})
      !! 364%nat = Some p
    /\ p == inject_Z (364 * 5).
Proof.
  destruct (integral_single_weekly_game_totals (js := triangleMath)
              {| selectedProfile := WinsEverything;
                 dailyGames := 0; weeklyGames := 1; monthlyGames := 0;
                 firstPlacePointsPerDay := 5; secondPlacePointsPerDay := 3;
                 thirdPlacePointsPerDay := 2; participationPointsPerDay := 1;
                 coefficients := coefficients defaultInputs |}
              364 eq_refl eq_refl eq_refl eq_refl ltac:(lia))
    as (p & Hp & _ & _ & Hyear).
  exists p. split; [exact Hp | exact (Hyear eq_refl)].
Defined.

(** ** Counters, negative totals and the yearly total *)

(** X19: after n days the simulator's week counter is floor(n / 7) and
    its month counter floor(n / 30) when games of that cadence are
    scheduled, and stays 0 when none are; the year ends with 52 weeks and
    12 months counted, the numbers of occurrences the annotation loops
    visit. *)
Theorem counters_follow_calendar {js : JSMath} (inp : Inputs) (d : PlacementDistribution)
    (n : nat) :
  (n <= 365)%nat ->
  weekCount (simulateDays inp d n)
  = (if (0 <? weeklyGames inp)%Z then Z.of_nat n / 7 else 0)%Z
  /\ monthCount (simulateDays inp d n)
     = (if (0 <? monthlyGames inp)%Z then Z.of_nat n / 30 else 0)%Z
  /\ weekCount (chartData inp d) = (if (0 <? weeklyGames inp)%Z then 52 else 0)%Z
  /\ monthCount (chartData inp d) = (if (0 <? monthlyGames inp)%Z then 12 else 0)%Z
  /\ length (steppedDays 7 365 7) = 52%nat
  /\ length (steppedDays 30 365 30) = 12%nat.
Proof.
  intros Hn. destruct (simulateDays_counters inp d n Hn) as [Hw Hm].
  destruct (simulateDays_counters inp d 365 ltac:(lia)) as [Hw' Hm'].
  rewrite chartData_simulateDays, Hw', Hm'.
  repeat split; assumption || reflexivity.
Qed.

Lemma counters_follow_calendar_witness :
  weekCount (simulateDays (js := triangleMath) defaultInputs (distribution Average) 20)
  = 2%Z.
Proof.
  exact (proj1 (counters_follow_calendar (js := triangleMath) defaultInputs
                  (distribution Average) 20 ltac:(lia))).
Defined.



